(** * Sentence-boundary matching and the Deepgram adapters of pipecat

    A shallow embedding of [src/pipecat/utils/string.py] and of the two
    service classes of [src/pipecat/services/deepgram.py], with the
    properties their specification states.

    Python strings are sequences of Unicode code points, so a text is a
    list of code points ([Z]).  The two regular expressions of [string.py]
    are transcribed as syntax trees and run by a backtracking matcher that
    follows the operations of Python's [re] module which the patterns use:
    character classes, concatenation, alternation, fixed-width negative
    look-behind and the [$] anchor. *)

From Stdlib Require Import String Ascii ZArith Arith Bool List Sorted Lia.
Import ListNotations.

(** ** Unicode code points and the character tables of the Python runtime *)

Module Unicode.

Definition char := Z.
Definition text := list char.

Local Open Scope Z_scope.

Definition in_range (lo hi c : char) : bool := (lo <=? c) && (c <=? hi).

(** [str.isspace], which is also what [\s] and [str.rstrip()] test. *)
Definition isspace (c : char) : bool :=
  in_range 0x09 0x0D c || in_range 0x1C 0x1F c || (c =? 0x20)
  || (c =? 0x85) || (c =? 0xA0) || (c =? 0x1680)
  || in_range 0x2000 0x200A c || (c =? 0x2028) || (c =? 0x2029)
  || (c =? 0x202F) || (c =? 0x205F) || (c =? 0x3000).

(** The code points of the digit zero of every decimal script (Unicode
    category Nd, Unicode 14.0): each is followed by the digits one to nine. *)
Definition decimal_zeros : list char :=
  [48; 1632; 1776; 1984; 2406; 2534; 2662; 2790; 2918; 3046; 3174; 3302;
   3430; 3558; 3664; 3792; 3872; 4160; 4240; 6112; 6160; 6470; 6608; 6784;
   6800; 6992; 7088; 7232; 7248; 42528; 43216; 43264; 43472; 43504; 43600;
   44016; 65296; 66720; 68912; 69734; 69872; 69942; 70096; 70384; 70736;
   70864; 71248; 71360; 71472; 71904; 72016; 72784; 73040; 73120; 92768;
   92864; 93008; 120782; 120792; 120802; 120812; 120822; 123200; 123632;
   125264; 130032].

(** [str.isdecimal], which is what [\d] tests on a [str] pattern. *)
Definition isdecimal (c : char) : bool :=
  existsb (fun z => in_range z (z + 9) c) decimal_zeros.

Definition ord (a : ascii) : char := Z.of_N (N_of_ascii a).

(** An ASCII literal as a text. *)
Definition str (s : string) : text := map ord (list_ascii_of_string s).
Arguments str s%_string.

(** [text.rstrip()]: the index after the last character that is kept. *)
Fixpoint rstrip_end (s : text) (j : nat) : nat :=
  match j with
  | O => O
  | S j' => if isspace (nth j' s 0) then rstrip_end s j' else j
  end.

Definition rstrip (s : text) : text := firstn (rstrip_end s (length s)) s.

End Unicode.

Import Unicode.

(** ** The fragment of Python's [re] that the patterns use *)

Module Re.

(** The members of a character class. *)
Inductive item :=
| One (c : char)            (* a single character, escaped or not *)
| Range (lo hi : char)      (* lo-hi *)
| Digit                     (* \d *)
| Space.                    (* \s *)

Definition item_matches (i : item) (c : char) : bool :=
  match i with
  | One x => Z.eqb c x
  | Range lo hi => in_range lo hi c
  | Digit => isdecimal c
  | Space => isspace c
  end.

Inductive regex :=
| Class (items : list item)   (* [...], or a single literal or escape *)
| Cat (r1 r2 : regex)         (* r1 r2 *)
| Alt (r1 r2 : regex)         (* r1|r2 *)
| NotBehind (r : regex)       (* (?<!r) *)
| AtEnd.                      (* $ *)

(** The width of a look-behind body; [re] accepts only bodies whose
    alternatives all have the same width. *)
Fixpoint width (r : regex) : nat :=
  match r with
  | Class _ => 1
  | Cat r1 r2 => width r1 + width r2
  | Alt r1 _ => width r1
  | NotBehind _ => 0
  | AtEnd => 0
  end.

(** [$] without [re.MULTILINE]: at the end of the text, or before a
    newline that is its last character. *)
Definition at_end (s : text) (pos : nat) : bool :=
  Nat.eqb pos (length s)
  || (Nat.eqb (S pos) (length s) && Z.eqb (nth pos s 0%Z) 0x0A%Z).

(** Backtracking match of [r] at [pos]; [k] is what remains to be matched
    and receives the position reached.  The result is the end of the first
    match in the order in which [re] tries the alternatives. *)
Fixpoint exec (r : regex) (s : text) (pos : nat)
    (k : nat -> option nat) : option nat :=
  match r with
  | Class items =>
      match nth_error s pos with
      | Some c => if existsb (fun i => item_matches i c) items
                  then k (S pos) else None
      | None => None
      end
  | Cat r1 r2 => exec r1 s pos (fun p => exec r2 s p k)
  | Alt r1 r2 =>
      match exec r1 s pos k with
      | Some e => Some e
      | None => exec r2 s pos k
      end
  | NotBehind r' =>
      let back := width r' in
      if Nat.leb back pos then
        match exec r' s (pos - back) (fun p => Some p) with
        | Some _ => None
        | None => k pos
        end
      else k pos
  | AtEnd => if at_end s pos then k pos else None
  end.

(** [pattern.match] at a given position: the end of the match. *)
Definition match_at (r : regex) (s : text) (pos : nat) : option nat :=
  exec r s pos (fun p => Some p).

(** The scan of [finditer]: the start positions from [pos] on are tried in
    turn, [fuel] bounding how many are left; after a match the scan goes on
    from its end, and from the next character when the match is empty. *)
Fixpoint scan (fuel : nat) (r : regex) (s : text) (pos : nat)
    : list (nat * nat) :=
  match fuel with
  | O => []
  | S fuel' =>
      if Nat.ltb (length s) pos then []
      else match match_at r s pos with
           | Some e =>
               (pos, e) :: scan fuel' r s (if Nat.eqb e pos then S pos else e)
           | None => scan fuel' r s (S pos)
           end
  end.

(** [pattern.finditer(text)]: the non-overlapping matches, left to right,
    each as (start, end). *)
Definition finditer (r : regex) (s : text) : list (nat * nat) :=
  scan (S (length s)) r s 0.

(** [pattern.search(text)]: the leftmost match, if any. *)
Fixpoint search_from (fuel : nat) (r : regex) (s : text) (pos : nat)
    : option (nat * nat) :=
  match fuel with
  | O => None
  | S fuel' =>
      match match_at r s pos with
      | Some e => Some (pos, e)
      | None => search_from fuel' r s (S pos)
      end
  end.

Definition search (r : regex) (s : text) : option (nat * nat) :=
  search_from (S (length s)) r s 0.

(** [match.end()] *)
Definition m_end (m : nat * nat) : Z := Z.of_nat (snd m).

(** Helpers to write patterns. *)
Definition chr (a : ascii) : regex := Class [One (ord a)].

Fixpoint cat (rs : list regex) (last : regex) : regex :=
  match rs with
  | [] => last
  | r :: rs' => Cat r (cat rs' last)
  end.

Definition lit2 (a b : ascii) : regex := Cat (chr a) (chr b).
Definition lit3 (a b c : ascii) : regex := Cat (chr a) (lit2 b c).
Definition lit4 (a b c d : ascii) : regex := Cat (chr a) (lit3 b c d).

End Re.

Import Re.

(** ** [pipecat/utils/string.py] *)

Open Scope char_scope.

(** The six look-behinds that both patterns start with. *)
Definition lookbehinds : list regex :=
  [ NotBehind (Class [Range (ord "A") (ord "Z")]);              (* (?<![A-Z]) *)
    NotBehind (Class [Digit]);                                  (* (?<!\d) *)
    NotBehind (Cat (Class [Digit])
                (Cat (Class [Space])
                     (Class [One (ord "a"); One (ord "p")])));  (* (?<!\d\s[ap]) *)
    NotBehind (Alt (lit2 "M" "r") (Alt (lit2 "M" "s") (lit2 "D" "r")));
                                                                (* (?<!Mr|Ms|Dr) *)
    NotBehind (lit3 "M" "r" "s");                               (* (?<!Mrs) *)
    NotBehind (lit4 "P" "r" "o" "f") ].                         (* (?<!Prof) *)

(** [[\.\?\!:;]] *)
Definition ascii_marks : regex :=
  Class [One (ord "."); One (ord "?"); One (ord "!"); One (ord ":"); One (ord ";")].

(** The full-width class: U+3002, U+FF1F, U+FF01, U+FF1A, U+FF1B. *)
Definition fullwidth_marks : regex :=
  Class [One 0x3002%Z; One 0xFF1F%Z; One 0xFF01%Z; One 0xFF1A%Z; One 0xFF1B%Z].

(** [ENDOFSENTENCE_PATTERN]: the alternation is not grouped, so it splits
    the whole pattern in two: the look-behinds and the ASCII class on the
    left, the full-width class and [$] on the right. *)
Definition ENDOFSENTENCE_PATTERN : regex :=
  Alt (cat lookbehinds ascii_marks)
      (Cat fullwidth_marks AtEnd).

Definition match_endofsentence (text : text) : Z :=
  match search ENDOFSENTENCE_PATTERN (rstrip text) with
  | Some m => m_end m
  | None => 0%Z
  end.

(** [ENDOFSENTENCES_PATTERN]: here the two classes are grouped by [(?:...)]
    and there is no [$]. *)
Definition ENDOFSENTENCES_PATTERN : regex :=
  cat lookbehinds (Alt ascii_marks fullwidth_marks).

(** What a Python function may hand back here: an [int] or a [list[int]]. *)
Inductive value :=
| Int (n : Z)
| IntList (l : list Z).

(** [[match.end() for match in ENDOFSENTENCES_PATTERN.finditer(text)]] *)
Definition end_indices (text : text) : list Z :=
  map m_end (finditer ENDOFSENTENCES_PATTERN text).

(** [end_indices[-1] if end_indices else 0] *)
Definition find_endofsentences (text : text) : value :=
  match end_indices text with
  | [] => Int 0
  | _ :: _ => Int (last (end_indices text) 0%Z)
  end.

Close Scope char_scope.


(** ** The boundary predicates, in the words of the specification *)

Module Boundary.

Definition is_ascii_terminator (c : char) : bool :=
  existsb (Z.eqb c) (str ".?!:;").

Definition is_fullwidth_terminator (c : char) : bool :=
  existsb (Z.eqb c) [0x3002; 0xFF1F; 0xFF01; 0xFF1A; 0xFF1B]%Z.

Definition is_terminator (c : char) : bool :=
  is_ascii_terminator c || is_fullwidth_terminator c.

Definition isupper (c : char) : bool := in_range 65%Z 90%Z c.

Definition is_a_or_p (c : char) : bool := Z.eqb c 97%Z || Z.eqb c 112%Z.

(** The characters of [s] from index [p] on satisfy the tests [ps], one each. *)
Fixpoint holds_at (s : text) (p : nat) (ps : list (char -> bool)) : bool :=
  match ps with
  | [] => true
  | f :: ps' =>
      match nth_error s p with
      | Some c => f c && holds_at s (S p) ps'
      | None => false
      end
  end.

(** The characters right before index [i] satisfy the tests [ps]. *)
Definition preceded_by (s : text) (i : nat) (ps : list (char -> bool)) : bool :=
  Nat.leb (length ps) i && holds_at s (i - length ps) ps.

Definition token (w : string) : list (char -> bool) :=
  map (fun c x => Z.eqb x c) (str w).

(** What suppresses a terminator: an uppercase letter, a digit, a digit, a
    space and [a] or [p], or one of the five tokens, right before it. *)
Definition contexts : list (list (char -> bool)) :=
  [ [isupper]; [isdecimal]; [isdecimal; isspace; is_a_or_p];
    token "Mr"; token "Ms"; token "Dr"; token "Mrs"; token "Prof" ].

Definition suppressed (s : text) (i : nat) : bool :=
  existsb (preceded_by s i) contexts.

(** Index [i] of [s] holds a terminator accepted by [which] that is not
    suppressed. *)
Definition boundary_of (which : char -> bool) (s : text) (i : nat) : bool :=
  match nth_error s i with
  | Some c => which c && negb (suppressed s i)
  | None => false
  end.

Definition boundary : text -> nat -> bool := boundary_of is_terminator.
Definition ascii_boundary : text -> nat -> bool := boundary_of is_ascii_terminator.

(** Index [i] of [s] holds a full-width terminator on which the text ends. *)
Definition fullwidth_end (s : text) (i : nat) : bool :=
  match nth_error s i with
  | Some c => is_fullwidth_terminator c && at_end s (S i)
  | None => false
  end.

(** The offsets right after the indices of [s] that satisfy [b], in
    increasing order. *)
Definition offsets_after (b : nat -> bool) (s : text) : list Z :=
  map (fun i => Z.of_nat (S i)) (filter b (seq 0 (length s))).

End Boundary.

Import Boundary.

(** ** [pipecat/services/deepgram.py] *)

Module Deepgram.

Open Scope string_scope.
Open Scope list_scope.

(** A raised exception: its class, what [str(e)] gives, and whether it is
    an instance of [Exception]; the exceptions that derive from
    [BaseException] only, [asyncio.CancelledError] among them, are not. *)
Record BaseException :=
  { exc_class : string; exc_str : string; is_Exception : bool }.

Definition ValueError (msg : string) : BaseException :=
  {| exc_class := "ValueError"; exc_str := msg; is_Exception := true |}.

(** What cancelling the task raises at an [await]. *)
Definition CancelledError : BaseException :=
  {| exc_class := "CancelledError"; exc_str := ""; is_Exception := false |}.

(** What a call into the outside gives: a value, or a raised exception. *)
Inductive result (A : Type) :=
| Ok (a : A)
| Err (e : BaseException).
Arguments Ok {A} a.
Arguments Err {A} e.

(** The frames these two services build.  A member of the [Language]
    enumeration is written by its value. *)
Inductive Frame :=
| TTSStartedFrame
| TTSAudioRawFrame (audio : list Byte.byte) (sample_rate : Z) (num_channels : Z)
| TTSStoppedFrame
| ErrorFrame (error : string)
| TranscriptionFrame (text user_id timestamp : string) (language : option string)
| InterimTranscriptionFrame (text user_id timestamp : string) (language : option string)
| UserStartedSpeakingFrame
| UserStoppedSpeakingFrame
| MetricsFrame (data : string).

(** How a coroutine that emits frames ends. *)
Inductive outcome (A : Type) :=
| Returned (a : A)
| Raised (e : BaseException)
| Unfinished.                   (* the model ran out of fuel *)
Arguments Returned {A} a.
Arguments Raised {A} e.
Arguments Unfinished {A}.

(** A coroutine that emits frames, by [yield] in an async generator or by
    [push_frame] in a handler: the frames emitted, in order, and how it
    ended. *)
Definition Gen (A : Type) : Type := list Frame * outcome A.

Definition ret {A} (a : A) : Gen A := ([], Returned a).

Definition bind {A B} (m : Gen A) (f : A -> Gen B) : Gen B :=
  let (frames, o) := m in
  match o with
  | Returned a => let (more, o') := f a in (frames ++ more, o')
  | Raised e => (frames, Raised e)
  | Unfinished => (frames, Unfinished)
  end.

Definition emit (f : Frame) : Gen unit := ([f], Returned tt).

Definition raise {A} (e : BaseException) : Gen A := ([], Raised e).

Definition await {A} (r : result A) : Gen A :=
  match r with
  | Ok a => ret a
  | Err e => raise e
  end.

(** [try: body  except Exception as e: handler e]: an exception that is
    no instance of [Exception] goes through. *)
Definition try_except {A} (body : Gen A) (handler : BaseException -> Gen A)
    : Gen A :=
  let (frames, o) := body in
  match o with
  | Raised e =>
      if is_Exception e
      then let (more, o') := handler e in (frames ++ more, o')
      else body
  | _ => body
  end.

Notation "x <- m ;; k" := (bind m (fun x => k))
  (at level 61, m at next level, right associativity).
Notation "m ;;; k" := (bind m (fun _ => k))
  (at level 61, right associativity).

(** *** [io.BytesIO], as far as [run_tts] uses it *)

Record BytesIO := { getvalue : list Byte.byte; tell : nat; closed : bool }.

Definition closed_file : BaseException :=
  ValueError "I/O operation on closed file.".

Definition seek (b : BytesIO) (pos : nat) : result BytesIO :=
  if closed b then Err closed_file
  else Ok {| getvalue := getvalue b; tell := pos; closed := false |}.

Definition read (b : BytesIO) (size : nat) : result (list Byte.byte * BytesIO) :=
  if closed b then Err closed_file
  else
    let chunk := firstn size (skipn (tell b) (getvalue b)) in
    Ok (chunk, {| getvalue := getvalue b;
                  tell := tell b + List.length chunk;
                  closed := false |}).

(** *** [DeepgramTTSService] *)

Record TTSSettings := { sample_rate : Z; encoding : string }.

Record DeepgramTTSService := { _voice_id : string; _settings : TTSSettings }.

(** [__init__], with its defaults written out by [default_tts]. *)
Definition tts_init (voice : string) (sample_rate : Z) (encoding : string)
    : DeepgramTTSService :=
  {| _voice_id := voice;
     _settings := {| sample_rate := sample_rate; encoding := encoding |} |}.

Definition default_tts : DeepgramTTSService :=
  tts_init "aura-helios-en" 24000 "linear16".

Record SpeakOptions :=
  { so_model : string; so_encoding : string; so_sample_rate : Z;
    so_container : string }.

(** The response of the Deepgram client; [stream_memory] may be [None]. *)
Record SpeakResponse := { stream_memory : option BytesIO }.

(** The Deepgram client: [speak.v("1").stream] answers or raises. *)
Record DeepgramClient :=
  { speak_stream : string -> SpeakOptions -> result SpeakResponse }.

Definition chunk_size : nat := Z.to_nat 8192.

(** The [while True] loop of [run_tts].  The stream modelled is that of the
    frames the generator yields; the metrics helpers of the base class
    yield nothing into it and are left out. *)
Fixpoint read_loop (fuel : nat) (self : DeepgramTTSService)
    (audio_buffer : BytesIO) : Gen unit :=
  match fuel with
  | O => ([], Unfinished)
  | S fuel' =>
      r <- await (read audio_buffer chunk_size) ;;
      match fst r with
      | [] => ret tt                                    (* break *)
      | _ :: _ =>
          emit (TTSAudioRawFrame (fst r) (sample_rate (_settings self)) 1) ;;;
          emit TTSStoppedFrame ;;;
          read_loop fuel' self (snd r)
      end
  end.

(** The [SpeakOptions] that [run_tts] builds before its [try]. *)
Definition options (self : DeepgramTTSService) : SpeakOptions :=
  {| so_model := _voice_id self;
     so_encoding := encoding (_settings self);
     so_sample_rate := sample_rate (_settings self);
     so_container := "none" |}.

(** The body of the [try] of [run_tts]. *)
Definition run_tts_body (client : DeepgramClient) (self : DeepgramTTSService)
    (text : string) : Gen unit :=
  response <- await (speak_stream client text (options self)) ;;
  emit TTSStartedFrame ;;;
  match stream_memory response with
  | None => raise (ValueError "No audio data received from Deepgram")
  | Some audio_buffer =>
      audio_buffer <- await (seek audio_buffer 0) ;;
      read_loop (S (List.length (getvalue audio_buffer))) self audio_buffer
  end.

Definition run_tts (client : DeepgramClient) (self : DeepgramTTSService)
    (text : string) : Gen unit :=
  try_except (run_tts_body client self text)
    (fun e => emit (ErrorFrame ("Error getting audio: " ++ exc_str e)%string)).

(** *** [DeepgramSTTService] *)

Record Alternative := { transcript : string; languages : list string }.
Record Channel := { alternatives : list Alternative }.
Record LiveResultResponse := { channel : Channel; is_final : bool }.

Record DeepgramSTTService := { vad_events : bool }.

Definition vad_enabled (self : DeepgramSTTService) : bool := vad_events self.

(** What the handlers take from the rest of the repository: the
    [Language] enumeration, as the test that a string is the value of one of
    its members, the reading of [time_now_iso8601()], and what the metrics
    helpers of the base class push when they are called. *)
Record Runtime :=
  { is_language : string -> bool;
    time_now_iso8601 : string;
    start_metrics_data : list string;
    stop_ttfb_metrics_data : list string;
    stop_processing_metrics_data : list string }.

(** [Language(x)]: the member whose value is [x], or [ValueError]. *)
Definition Language (rt : Runtime) (x : string) : result string :=
  if is_language rt x then Ok x
  else Err (ValueError ("'" ++ x ++ "' is not a valid Language")%string).

Definition push_frame (f : Frame) : Gen unit := emit f.

(** Modelled from the spec: the metrics helpers of the base class, which is
    not among the sources.  Metrics are a side channel of frames: a helper
    pushes metrics frames, none when the processor reports none, and
    returns. *)
Definition push_metrics (data : list string) : Gen unit :=
  (map MetricsFrame data, Returned tt).

Definition stop_ttfb_metrics (rt : Runtime) : Gen unit :=
  push_metrics (stop_ttfb_metrics_data rt).

Definition stop_processing_metrics (rt : Runtime) : Gen unit :=
  push_metrics (stop_processing_metrics_data rt).

(** [start_metrics]: [start_ttfb_metrics] and [start_processing_metrics]. *)
Definition start_metrics (rt : Runtime) : Gen unit :=
  push_metrics (start_metrics_data rt).

Definition _on_message (rt : Runtime) (self : DeepgramSTTService)
    (result : LiveResultResponse) : Gen unit :=
  match alternatives (channel result) with
  | [] => ret tt
  | alt0 :: _ =>
      language <-
        match languages alt0 with
        | [] => ret None
        | l :: _ => x <- await (Language rt l) ;; ret (Some x)
        end ;;
      if (0 <? String.length (transcript alt0))%nat then
        stop_ttfb_metrics rt ;;;
        (if is_final result then
           push_frame (TranscriptionFrame
                         (transcript alt0) "" (time_now_iso8601 rt) language) ;;;
           (if vad_enabled self then push_frame UserStoppedSpeakingFrame
            else ret tt) ;;;
           stop_processing_metrics rt
         else
           push_frame (InterimTranscriptionFrame
                         (transcript alt0) "" (time_now_iso8601 rt) language))
      else ret tt
  end.

(** The frames that wrap a transcript. *)
Definition is_transcription (f : Frame) : bool :=
  match f with
  | TranscriptionFrame _ _ _ _ | InterimTranscriptionFrame _ _ _ _ => true
  | _ => false
  end.

Definition is_metrics (f : Frame) : bool :=
  match f with
  | MetricsFrame _ => true
  | _ => false
  end.

Definition is_stopped (f : Frame) : bool :=
  match f with
  | TTSStoppedFrame => true
  | _ => false
  end.

(** The bytes of a buffer cut into pieces of [size], the last one shorter
    if need be. *)
Fixpoint chunks (fuel size : nat) (data : list Byte.byte)
    : list (list Byte.byte) :=
  match fuel, data with
  | O, _ | _, [] => []
  | S fuel', _ :: _ => firstn size data :: chunks fuel' size (skipn size data)
  end.

(** The audio chunks of a response buffer read from its start. *)
Definition audio_chunks (b : BytesIO) : list (list Byte.byte) :=
  chunks (List.length (getvalue b)) chunk_size (getvalue b).

(** What one chunk puts on the stream of [run_tts]. *)
Definition chunk_frames (self : DeepgramTTSService) (chunk : list Byte.byte)
    : list Frame :=
  [TTSAudioRawFrame chunk (sample_rate (_settings self)) 1; TTSStoppedFrame].

(** Sample inputs: a response of 8193 bytes, a client that answers with it,
    a client whose request fails, a client whose request is cancelled, a
    runtime that knows the language [en] and reports metrics, a final
    result, and a result in a language that is none. *)
Definition sample_buffer : BytesIO :=
  {| getvalue := repeat Byte.x00 chunk_size ++ [Byte.x01];
     tell := 0; closed := false |}.

Definition sample_client : DeepgramClient :=
  {| speak_stream := fun _ _ => Ok {| stream_memory := Some sample_buffer |} |}.

Definition failing_client : DeepgramClient :=
  {| speak_stream := fun _ _ => Err (ValueError "connection refused") |}.

Definition cancelled_client : DeepgramClient :=
  {| speak_stream := fun _ _ => Err CancelledError |}.

Definition sample_runtime : Runtime :=
  {| is_language := String.eqb "en";
     time_now_iso8601 := "2024-11-04T12:00:00.000+00:00";
     start_metrics_data := [];
     stop_ttfb_metrics_data := ["ttfb"];
     stop_processing_metrics_data := ["processing"] |}.

Definition sample_alternative : Alternative :=
  {| transcript := "hello"; languages := ["en"] |}.

Definition sample_result : LiveResultResponse :=
  {| channel := {| alternatives := [sample_alternative] |}; is_final := true |}.


(** *** What the stream of [run_tts] carries *)

(** The audio bytes of a stream, frame after frame. *)
Definition audio_payload (frames : list Frame) : list Byte.byte :=
  flat_map (fun f => match f with
                     | TTSAudioRawFrame audio _ _ => audio
                     | _ => []
                     end) frames.

(** The number of bytes of each audio frame of a stream, in order. *)
Definition audio_sizes (frames : list Frame) : list nat :=
  flat_map (fun f => match f with
                     | TTSAudioRawFrame audio _ _ => [List.length audio]
                     | _ => []
                     end) frames.

(** *** The other handlers of [DeepgramSTTService] *)

(** [_on_speech_started]; the event handlers that it calls last are the
    user's and are left out. *)
Definition _on_speech_started (rt : Runtime) (self : DeepgramSTTService)
    : Gen unit :=
  (if vad_enabled self then push_frame UserStartedSpeakingFrame else ret tt) ;;;
  start_metrics rt.

(** [_on_utterance_end] only calls the event handlers. *)
Definition _on_utterance_end (self : DeepgramSTTService) : Gen unit := ret tt.

(** The events of the Deepgram connection that the service listens to. *)
Inductive LiveTranscriptionEvent :=
| Transcript (result : LiveResultResponse)
| SpeechStarted
| UtteranceEnd.

(** The handlers that [__init__] registers with [self._connection.on]: the
    one for transcripts always, the other two when VAD events are enabled. *)
Definition handler_of (rt : Runtime) (self : DeepgramSTTService)
    (ev : LiveTranscriptionEvent) : option (Gen unit) :=
  match ev with
  | Transcript result => Some (_on_message rt self result)
  | SpeechStarted =>
      if vad_enabled self then Some (_on_speech_started rt self) else None
  | UtteranceEnd =>
      if vad_enabled self then Some (_on_utterance_end self) else None
  end.

(** The frames pushed while the connection delivers events one after the
    other, each with the runtime of its moment; a handler that raises has
    pushed what it pushed before. *)
Definition pushed_by (self : DeepgramSTTService)
    (evs : list (Runtime * LiveTranscriptionEvent)) : list Frame :=
  flat_map (fun e => match handler_of (fst e) self (snd e) with
                     | Some run => fst run
                     | None => []
                     end) evs.

Definition is_final_transcription (f : Frame) : bool :=
  match f with
  | TranscriptionFrame _ _ _ _ => true
  | _ => false
  end.

Definition is_user_stopped (f : Frame) : bool :=
  match f with
  | UserStoppedSpeakingFrame => true
  | _ => false
  end.

Definition is_user_started (f : Frame) : bool :=
  match f with
  | UserStartedSpeakingFrame => true
  | _ => false
  end.

(** Every [UserStoppedSpeakingFrame] of a stream comes right after a
    [TranscriptionFrame]; [after_final] tells whether the frame before the
    stream was one. *)
Fixpoint stops_follow_finals (after_final : bool) (frames : list Frame) : bool :=
  match frames with
  | [] => true
  | f :: frames' =>
      (if is_user_stopped f then after_final else true)
      && stops_follow_finals (is_final_transcription f) frames'
  end.

Definition is_speech_started (e : Runtime * LiveTranscriptionEvent) : bool :=
  match snd e with
  | SpeechStarted => true
  | _ => false
  end.

End Deepgram.

(** ** [examples/foundational/06a-image-sync.py] *)

Module ImageSync.

Local Open Scope string_scope.
Local Open Scope list_scope.

(** The frames that [ImageSyncAggregator] tells apart; [OtherFrame] stands
    for a frame of any other class. *)
Inductive Frame :=
| BotStartedSpeakingFrame
| BotStoppedSpeakingFrame
| OutputImageRawFrame (image : list Byte.byte) (size : Z * Z)
    (format : option string)
| TextFrame (text : string)
| OtherFrame (name : string).

(** What [Image.open] gives, as far as [__init__] reads it. *)
Record Image := { format : option string; tobytes : list Byte.byte }.

Record ImageSyncAggregator :=
  { _speaking_image_format : option string;
    _speaking_image_bytes : list Byte.byte;
    _waiting_image_format : option string;
    _waiting_image_bytes : list Byte.byte }.

(** [__init__], given the two images opened from its paths. *)
Definition init (speaking_image waiting_image : Image) : ImageSyncAggregator :=
  {| _speaking_image_format := format speaking_image;
     _speaking_image_bytes := tobytes speaking_image;
     _waiting_image_format := format waiting_image;
     _waiting_image_bytes := tobytes waiting_image |}.

Definition speaking_frame (self : ImageSyncAggregator) : Frame :=
  OutputImageRawFrame (_speaking_image_bytes self) (1024, 1024)%Z
    (_speaking_image_format self).

Definition waiting_frame (self : ImageSyncAggregator) : Frame :=
  OutputImageRawFrame (_waiting_image_bytes self) (1024, 1024)%Z
    (_waiting_image_format self).

(** [process_frame]: the frames it pushes downstream, in order. *)
Definition process_frame (self : ImageSyncAggregator) (frame : Frame)
    : list Frame :=
  match frame with
  | BotStartedSpeakingFrame => [speaking_frame self; frame]
  | BotStoppedSpeakingFrame => [waiting_frame self; frame]
  | _ => [frame]
  end.

(** The frames pushed for the frames of a pipeline, processed one after
    the other. *)
Definition process_frames (self : ImageSyncAggregator) (frames : list Frame)
    : list Frame :=
  flat_map (process_frame self) frames.

Definition is_image (f : Frame) : bool :=
  match f with
  | OutputImageRawFrame _ _ _ => true
  | _ => false
  end.

Definition is_bot_speaking (f : Frame) : bool :=
  match f with
  | BotStartedSpeakingFrame | BotStoppedSpeakingFrame => true
  | _ => false
  end.

(** The image shown after a stream of frames: the last image of the
    stream, or [shown] when the stream has none. *)
Definition image_shown (shown : option Frame) (frames : list Frame)
    : option Frame :=
  fold_left (fun acc f => if is_image f then Some f else acc) frames shown.

(** Whether the bot speaks after a stream of frames: what the last
    [BotStartedSpeakingFrame] or [BotStoppedSpeakingFrame] says, or
    [speaking] when the stream has none. *)
Definition bot_speaking (speaking : option bool) (frames : list Frame)
    : option bool :=
  fold_left (fun acc f => match f with
                          | BotStartedSpeakingFrame => Some true
                          | BotStoppedSpeakingFrame => Some false
                          | _ => acc
                          end) frames speaking.

(** The image that goes with a state of the bot. *)
Definition image_for (self : ImageSyncAggregator) (speaking : option bool)
    : option Frame :=
  match speaking with
  | Some true => Some (speaking_frame self)
  | Some false => Some (waiting_frame self)
  | None => None
  end.

End ImageSync.

(** * Properties *)

(** ** [rstrip] *)

Section Rstrip.

Lemma rstrip_end_le (s : text) (j : nat) : rstrip_end s j <= j.
Proof.
  induction j as [|j IH]; simpl; [lia|].
  destruct (isspace (nth j s 0%Z)); lia.
Qed.

(** The character before the index where [rstrip] stops is not a space. *)
Lemma rstrip_end_stop (s : text) (j m : nat) :
  rstrip_end s j = S m -> isspace (nth m s 0%Z) = false.
Proof.
  induction j as [|j IH]; simpl; [discriminate|].
  destruct (isspace (nth j s 0%Z)) eqn:E; [exact IH|].
  intros H; injection H as <-; exact E.
Qed.

Lemma rstrip_end_prefix (t w : text) (j : nat) :
  j <= length t -> rstrip_end (t ++ w) j = rstrip_end t j.
Proof.
  induction j as [|j IH]; simpl; [reflexivity|]; intros Hj.
  rewrite app_nth1 by lia.
  destruct (isspace (nth j t 0%Z)); [apply IH; lia | reflexivity].
Qed.

Lemma rstrip_end_spaces (t w : text) (k : nat) :
  forallb isspace w = true -> k <= length w ->
  rstrip_end (t ++ w) (length t + k) = rstrip_end (t ++ w) (length t).
Proof.
  intros Hw; induction k as [|k IH]; intros Hk.
  - now rewrite Nat.add_0_r.
  - rewrite Nat.add_succ_r; simpl.
    rewrite app_nth2_plus.
    rewrite forallb_forall in Hw.
    rewrite (Hw (nth k w 0%Z)) by (apply nth_In; lia).
    apply IH; lia.
Qed.

Lemma rstrip_app_spaces (t w : text) :
  forallb isspace w = true -> rstrip (t ++ w) = rstrip t.
Proof.
  intros Hw; unfold rstrip.
  rewrite length_app, rstrip_end_spaces, rstrip_end_prefix by (auto; lia).
  rewrite firstn_app.
  replace (rstrip_end t (length t) - length t) with 0
    by (pose proof (rstrip_end_le t (length t)); lia).
  simpl; apply app_nil_r.
Qed.

Lemma rstrip_length (s : text) :
  length (rstrip s) = rstrip_end s (length s).
Proof.
  unfold rstrip; rewrite length_firstn.
  pose proof (rstrip_end_le s (length s)); lia.
Qed.

Lemma rstrip_last_not_space (s : text) (n : nat) :
  length (rstrip s) = S n -> isspace (nth n (rstrip s) 0%Z) = false.
Proof.
  intros H; rewrite rstrip_length in H.
  unfold rstrip; rewrite H.
  rewrite <- (rstrip_end_stop _ _ _ H).
  f_equal.
  rewrite <- (firstn_skipn (S n) s) at 2.
  rewrite app_nth1; [reflexivity|].
  rewrite length_firstn.
  pose proof (rstrip_end_le s (length s)); lia.
Qed.

Lemma rstrip_spaces (w : text) : forallb isspace w = true -> rstrip w = [].
Proof.
  intros Hw; apply (rstrip_app_spaces []) in Hw; simpl in Hw; exact Hw.
Qed.

End Rstrip.

(** ** What the two patterns match at a position *)

Section PatternAt.

Variable s : text.

Lemma exec_Cat (r1 r2 : regex) (i : nat) (k : nat -> option nat) :
  exec (Cat r1 r2) s i k = exec r1 s i (fun p => exec r2 s p k).
Proof. reflexivity. Qed.

Ltac split_cases :=
  repeat (cbn -[Nat.leb Nat.sub isdecimal isspace in_range Z.eqb nth_error at_end];
          match goal with
          | |- context [Nat.leb ?a ?b] => destruct (Nat.leb a b)
          | |- context [nth_error s ?p] => destruct (nth_error s p)
          | |- context [Z.eqb ?a ?b] => destruct (Z.eqb a b)
          | |- context [in_range ?a ?b ?c] => destruct (in_range a b c)
          | |- context [isdecimal ?c] => destruct (isdecimal c)
          | |- context [isspace ?c] => destruct (isspace c)
          | |- context [at_end ?t ?p] => destruct (at_end t p)
          end);
  cbn; try reflexivity.

Lemma behind_upper (i : nat) k :
  exec (nth 0 lookbehinds AtEnd) s i k
  = if preceded_by s i [isupper] then None else k i.
Proof. unfold preceded_by, isupper; split_cases. Qed.

Lemma behind_digit (i : nat) k :
  exec (nth 1 lookbehinds AtEnd) s i k
  = if preceded_by s i [isdecimal] then None else k i.
Proof. unfold preceded_by; split_cases. Qed.

Lemma behind_time (i : nat) k :
  exec (nth 2 lookbehinds AtEnd) s i k
  = if preceded_by s i [isdecimal; isspace; is_a_or_p] then None else k i.
Proof. unfold preceded_by, is_a_or_p; split_cases. Qed.

Lemma behind_titles (i : nat) k :
  exec (nth 3 lookbehinds AtEnd) s i k
  = if preceded_by s i (token "Mr") || preceded_by s i (token "Ms")
       || preceded_by s i (token "Dr")
    then None else k i.
Proof. unfold preceded_by; split_cases. Qed.

Lemma behind_mrs (i : nat) k :
  exec (nth 4 lookbehinds AtEnd) s i k
  = if preceded_by s i (token "Mrs") then None else k i.
Proof. unfold preceded_by; split_cases. Qed.

Lemma behind_prof (i : nat) k :
  exec (nth 5 lookbehinds AtEnd) s i k
  = if preceded_by s i (token "Prof") then None else k i.
Proof. unfold preceded_by; split_cases. Qed.

(** The look-behinds together let a position through exactly when it is
    not suppressed. *)
Lemma exec_lookbehinds (r : regex) (i : nat) k :
  exec (cat lookbehinds r) s i k
  = if suppressed s i then None else exec r s i k.
Proof.
  change (cat lookbehinds r)
    with (Cat (nth 0 lookbehinds AtEnd) (Cat (nth 1 lookbehinds AtEnd)
         (Cat (nth 2 lookbehinds AtEnd) (Cat (nth 3 lookbehinds AtEnd)
         (Cat (nth 4 lookbehinds AtEnd) (Cat (nth 5 lookbehinds AtEnd) r)))))).
  rewrite exec_Cat, behind_upper, exec_Cat, behind_digit, exec_Cat,
    behind_time, exec_Cat, behind_titles, exec_Cat, behind_mrs, exec_Cat,
    behind_prof.
  unfold suppressed, contexts; cbn [existsb].
  repeat match goal with
         | |- context [preceded_by s i ?ps] => destruct (preceded_by s i ps)
         end; reflexivity.
Qed.

Lemma match_at_sentences (i : nat) :
  match_at ENDOFSENTENCES_PATTERN s i
  = if boundary s i then Some (S i) else None.
Proof.
  unfold match_at, ENDOFSENTENCES_PATTERN; rewrite exec_lookbehinds.
  unfold boundary, boundary_of, is_terminator, is_ascii_terminator,
    is_fullwidth_terminator.
  destruct (suppressed s i); split_cases.
Qed.

Lemma match_at_sentence (i : nat) :
  match_at ENDOFSENTENCE_PATTERN s i
  = if ascii_boundary s i || fullwidth_end s i then Some (S i) else None.
Proof.
  unfold match_at, ENDOFSENTENCE_PATTERN.
  cbn [exec]; rewrite exec_lookbehinds.
  unfold ascii_boundary, boundary_of, fullwidth_end, is_ascii_terminator,
    is_fullwidth_terminator.
  destruct (suppressed s i); split_cases.
Qed.

Lemma boundary_of_range (which : char -> bool) (i : nat) :
  length s <= i -> boundary_of which s i = false.
Proof.
  intros H; unfold boundary_of.
  apply nth_error_None in H; now rewrite H.
Qed.

Lemma fullwidth_end_range (i : nat) :
  length s <= i -> fullwidth_end s i = false.
Proof.
  intros H; unfold fullwidth_end.
  apply nth_error_None in H; now rewrite H.
Qed.

End PatternAt.

(** ** Scanning with a pattern that matches one character at a time *)

Section Scan.

Variables (r : regex) (s : text) (b : nat -> bool).

Hypothesis match_unit :
  forall i, match_at r s i = if b i then Some (S i) else None.

Lemma scan_unit (fuel pos : nat) :
  S (length s) <= pos + fuel ->
  scan fuel r s pos
  = map (fun i => (i, S i)) (filter b (seq pos (S (length s) - pos))).
Proof.
  revert pos; induction fuel as [|fuel IH]; intros pos Hf.
  - replace (S (length s) - pos) with 0 by lia; reflexivity.
  - cbn [scan]. destruct (Nat.ltb_spec (length s) pos) as [Hp|Hp].
    + replace (S (length s) - pos) with 0 by lia; reflexivity.
    + replace (S (length s) - pos) with (S (S (length s) - S pos)) by lia.
      cbn [seq filter]. rewrite match_unit.
      destruct (b pos).
      * replace (Nat.eqb (S pos) pos) with false
          by (symmetry; apply Nat.eqb_neq; lia).
        cbn [map]; f_equal; apply IH; lia.
      * apply IH; lia.
Qed.

Lemma search_from_unit (fuel pos : nat) :
  search_from fuel r s pos
  = option_map (fun i => (i, S i)) (find b (seq pos fuel)).
Proof.
  revert pos; induction fuel as [|fuel IH]; intros pos; [reflexivity|].
  cbn [search_from seq find]. rewrite match_unit.
  destruct (b pos); [reflexivity | apply IH].
Qed.

End Scan.

Section FirstAndLast.

Variable b : nat -> bool.

Lemma find_first (a m n : nat) :
  existsb b (seq a (n - a)) = false -> b n = true -> a <= n < a + m ->
  find b (seq a m) = Some n.
Proof.
  revert a; induction m as [|m IH]; intros a Hbefore Hn Hr; [lia|].
  cbn [seq find].
  destruct (Nat.eq_dec a n) as [->|Hne]; [now rewrite Hn|].
  replace (n - a) with (S (n - S a)) in Hbefore by lia.
  cbn [seq existsb] in Hbefore. apply orb_false_iff in Hbefore as [Ha Hrest].
  rewrite Ha. apply IH; auto; lia.
Qed.

Lemma find_nowhere (l : list nat) : existsb b l = false -> find b l = None.
Proof.
  induction l as [|x l IH]; [reflexivity|]; cbn.
  intros H; apply orb_false_iff in H as [Hx Hl]; rewrite Hx; auto.
Qed.

(** The last index below [n] that satisfies [b], read off the filtered
    indices. *)
Lemma filter_seq_last (n : nat) :
  (filter b (seq 0 n) = [] /\ forall i, i < n -> b i = false)
  \/ (exists i l, filter b (seq 0 n) = l ++ [i] /\ i < n /\ b i = true
                  /\ forall j, i < j < n -> b j = false).
Proof.
  induction n as [|n IH]; [left; split; [reflexivity | lia]|].
  rewrite seq_S, filter_app; cbn [filter Nat.add].
  destruct (b n) eqn:Hn.
  - right; exists n, (filter b (seq 0 n)); repeat split; auto; lia.
  - rewrite app_nil_r. destruct IH as [[He Hall]|(i & l & He & Hi & Hbi & Hall)].
    + left; split; [exact He|].
      intros i Hi; destruct (Nat.eq_dec i n) as [->|]; [exact Hn | apply Hall; lia].
    + right; exists i, l; repeat split; auto.
      intros j Hj; destruct (Nat.eq_dec j n) as [->|]; [exact Hn | apply Hall; lia].
Qed.

End FirstAndLast.

(** [finditer] with [ENDOFSENTENCES_PATTERN] reports every non-suppressed
    terminator, ASCII or full-width, left to right. *)
Lemma end_indices_offsets (s : text) :
  end_indices s = offsets_after (boundary s) s.
Proof.
  unfold end_indices, finditer, offsets_after.
  rewrite (scan_unit _ _ _ (match_at_sentences s)) by lia.
  rewrite Nat.sub_0_r, seq_S, filter_app; cbn [filter Nat.add].
  unfold boundary at 2; rewrite boundary_of_range by lia.
  rewrite app_nil_r, map_map; reflexivity.
Qed.

Lemma find_endofsentences_last (s : text) :
  find_endofsentences s = Int (last (end_indices s) 0%Z).
Proof. unfold find_endofsentences; destruct (end_indices s); reflexivity. Qed.

(** [search] with [ENDOFSENTENCE_PATTERN] stops at the first index that
    holds a non-suppressed ASCII terminator or a full-width terminator on
    which the trimmed text ends. *)
Lemma match_endofsentence_first (s : text) :
  match_endofsentence s
  = match find (fun i => ascii_boundary (rstrip s) i || fullwidth_end (rstrip s) i)
            (seq 0 (S (length (rstrip s)))) with
    | Some i => Z.of_nat (S i)
    | None => 0%Z
    end.
Proof.
  unfold match_endofsentence, search.
  rewrite (search_from_unit _ _ _ (match_at_sentence (rstrip s))).
  destruct (find _ _); reflexivity.
Qed.

(** ** The examples of the specification and of the pattern's comments *)

Example match_hello_world : match_endofsentence (str "Hello world.") = 12%Z.
Proof. vm_compute; reflexivity. Qed.

Example match_dr_smith : match_endofsentence (str "Dr. Smith is here") = 0%Z.
Proof. vm_compute; reflexivity. Qed.

Example match_usa : match_endofsentence (str "America, or the U.") = 0%Z.
Proof. vm_compute; reflexivity. Qed.

Example match_numbered : match_endofsentence (str "1.") = 0%Z.
Proof. vm_compute; reflexivity. Qed.

Example match_time : match_endofsentence (str "It's 3:00 a.") = 0%Z.
Proof. vm_compute; reflexivity. Qed.

Example match_fullwidth_end :
  match_endofsentence (str "ni hao" ++ [0x3002])%Z = 7%Z.
Proof. vm_compute; reflexivity. Qed.

Example match_two_sentences : match_endofsentence (str "Hi. Bye.") = 3%Z.
Proof. vm_compute; reflexivity. Qed.

(** ** [find_endofsentences] *)

(** C9: [find_endofsentences] hands back one integer, never a list: the
    offset right after the last non-suppressed terminator of the text when
    there is one, and 0 when there is none. *)
Theorem find_endofsentences_single_offset (s : text) :
  ((forall i, boundary s i = false) /\ find_endofsentences s = Int 0)
  \/ (exists i, boundary s i = true
                /\ (forall j, i < j -> boundary s j = false)
                /\ find_endofsentences s = Int (Z.of_nat (S i))).
Proof.
  rewrite find_endofsentences_last, end_indices_offsets; unfold offsets_after.
  destruct (filter_seq_last (boundary s) (length s))
    as [[He Hall]|(i & l & He & Hi & Hbi & Hall)]; rewrite He.
  - left; split; [|reflexivity].
    intros i; destruct (Nat.lt_ge_cases i (length s)); [auto|].
    now apply boundary_of_range.
  - right; exists i; repeat split; auto.
    + intros j Hj; destruct (Nat.lt_ge_cases j (length s)); [apply Hall; lia|].
      now apply boundary_of_range.
    + rewrite map_app; cbn [map]; now rewrite last_last.
Qed.

(** C1: on the text of the specification's example the list of offsets that
    [find_endofsentences] builds is [9; 22; 28], and what it returns is the
    integer 28, not that list; on a text without a terminator it returns
    the integer 0, not the empty list. *)
Theorem find_endofsentences_three_sentences :
  end_indices (str "Hi there. How are you? Fine!") = [9; 22; 28]%Z
  /\ find_endofsentences (str "Hi there. How are you? Fine!") = Int 28
  /\ find_endofsentences (str "Hi there. How are you? Fine!")
     <> IntList [9; 22; 28]%Z
  /\ find_endofsentences (str "no end") = Int 0
  /\ find_endofsentences (str "no end") <> IntList [].
Proof. repeat split; try discriminate; vm_compute; reflexivity. Qed.

(** ** [match_endofsentence] *)

(** C2: the trimmed text [Hi. Bye] does not end on a terminator, and
    [match_endofsentence] returns 3, the offset after its first period. *)
Theorem match_endofsentence_inner_period :
  rstrip (str "Hi. Bye") = str "Hi. Bye"
  /\ is_terminator (last (str "Hi. Bye") 0%Z) = false
  /\ match_endofsentence (str "Hi. Bye") = 3%Z.
Proof. repeat split; vm_compute; reflexivity. Qed.

(** C4: on the text of the specification's example [match_endofsentence]
    returns 19, the offset after the period that follows [m]. *)
Theorem match_endofsentence_costs_example :
  match_endofsentence (str "It costs $3.00 a.m. approximately") = 19%Z.
Proof. vm_compute; reflexivity. Qed.

(** C5: a full-width terminator that ends the text is reported by
    [match_endofsentence] also right after a digit, an uppercase letter or
    a token, where [find_endofsentences] suppresses it. *)
Theorem match_endofsentence_fullwidth_after_digit :
  let digit := (str "3" ++ [0x3002])%Z in
  let upper := (str "A" ++ [0xFF1F])%Z in
  let title := (str "Prof" ++ [0xFF01])%Z in
  (suppressed digit 1 = true /\ match_endofsentence digit = 2%Z
   /\ find_endofsentences digit = Int 0)
  /\ (suppressed upper 1 = true /\ match_endofsentence upper = 2%Z
      /\ find_endofsentences upper = Int 0)
  /\ (suppressed title 4 = true /\ match_endofsentence title = 5%Z
      /\ find_endofsentences title = Int 0).
Proof. repeat split; vm_compute; reflexivity. Qed.

(** C3, as stated, fails: the trimmed text has one non-suppressed
    terminator, the full-width stop at index 2, and [match_endofsentence]
    returns 0, not the offset 3 after it. *)
Lemma match_endofsentence_last_counterexample :
  let s := (str "Hi" ++ [0x3002] ++ str "Bye")%Z in
  offsets_after (boundary (rstrip s)) (rstrip s) = [3%Z]
  /\ match_endofsentence s = 0%Z.
Proof. split; vm_compute; reflexivity. Qed.

Lemma last_nth_error (t : text) (j : nat) (c d : char) :
  nth_error t j = Some c -> S j = length t -> last t d = c.
Proof.
  revert j; induction t as [|x t IH]; intros j Hn Hl; [discriminate|].
  destruct j as [|j]; cbn in Hn, Hl.
  - destruct t; [now injection Hn | discriminate].
  - destruct t as [|y t]; [discriminate|].
    change (last (x :: y :: t) d) with (last (y :: t) d).
    apply (IH j); auto.
Qed.

(** C3, amended: when the trimmed text ends on a non-suppressed terminator
    and no non-suppressed ASCII terminator comes before it,
    [match_endofsentence] returns the offset right after that last
    terminator, the length of the trimmed text; when the trimmed text has
    no non-suppressed ASCII terminator and does not end on a full-width
    one, so also when it has no terminator at all, it returns 0. *)
Theorem match_endofsentence_final_terminator (s : text) :
  let t := rstrip s in
  (forall n, length t = S n -> boundary t n = true ->
     existsb (ascii_boundary t) (seq 0 n) = false ->
     match_endofsentence s = Z.of_nat (S n))
  /\ (existsb (ascii_boundary t) (seq 0 (length t)) = false ->
      is_fullwidth_terminator (last t 0%Z) = false ->
      match_endofsentence s = 0%Z).
Proof.
  intros t; split.
  - intros n Hlen Hb Hbefore.
    rewrite match_endofsentence_first; fold t.
    unfold boundary, boundary_of in Hb.
    destruct (nth_error t n) as [c|] eqn:Hc; [|discriminate].
    apply andb_true_iff in Hb as [Hterm Hsup].
    rewrite (find_first _ 0 (S (length t)) n); [reflexivity| | |lia].
    + rewrite Nat.sub_0_r.
      apply not_true_is_false; intros H.
      apply existsb_exists in H as (j & Hin & Hj).
      apply in_seq in Hin.
      apply orb_true_iff in Hj as [Hj|Hj].
      * assert (existsb (ascii_boundary t) (seq 0 n) = true)
          by (apply existsb_exists; exists j; split; [apply in_seq; lia | auto]).
        congruence.
      * unfold fullwidth_end in Hj.
        destruct (nth_error t j); [|discriminate].
        apply andb_true_iff in Hj as [_ Hend].
        unfold at_end in Hend.
        apply orb_true_iff in Hend as [Hend|Hend].
        -- apply Nat.eqb_eq in Hend; lia.
        -- apply andb_true_iff in Hend as [Hj Hnl].
           apply Nat.eqb_eq in Hj; apply Z.eqb_eq in Hnl.
           replace (S j) with n in Hnl by lia.
           rewrite (nth_error_nth t n 0%Z Hc) in Hnl; subst c; discriminate.
    + unfold ascii_boundary, boundary_of, fullwidth_end; rewrite Hc.
      unfold is_terminator in Hterm. rewrite Hsup.
      destruct (is_ascii_terminator c); [reflexivity|].
      cbn in Hterm |- *; rewrite Hterm.
      unfold at_end; rewrite Hlen, Nat.eqb_refl; reflexivity.
  - intros Hascii Hlast.
    rewrite match_endofsentence_first; fold t.
    rewrite find_nowhere; [reflexivity|].
    apply not_true_is_false; intros H.
    apply existsb_exists in H as (j & Hin & Hj).
    apply in_seq in Hin.
    apply orb_true_iff in Hj as [Hj|Hj].
    + destruct (Nat.lt_ge_cases j (length t)) as [Hlt|Hge].
      * assert (existsb (ascii_boundary t) (seq 0 (length t)) = true)
          by (apply existsb_exists; exists j; split; [apply in_seq; lia | auto]).
        congruence.
      * unfold ascii_boundary in Hj; rewrite boundary_of_range in Hj by lia.
        discriminate.
    + unfold fullwidth_end in Hj.
      destruct (nth_error t j) as [c|] eqn:Hc; [|discriminate].
      apply andb_true_iff in Hj as [Hfw Hend].
      unfold at_end in Hend.
      apply orb_true_iff in Hend as [Hend|Hend].
      * apply Nat.eqb_eq in Hend.
        rewrite (last_nth_error t j c 0%Z Hc Hend) in Hlast; congruence.
      * apply andb_true_iff in Hend as [Hj Hnl].
        apply Nat.eqb_eq in Hj; apply Z.eqb_eq in Hnl.
        pose proof (rstrip_last_not_space s (S j) (eq_sym Hj)) as Hsp.
        fold t in Hsp; rewrite Hnl in Hsp; discriminate.
Qed.

Lemma match_endofsentence_final_terminator_witness :
  match_endofsentence (str "Dr. Smith is here.  ") = 18%Z
  /\ match_endofsentence (str "Dr. Smith is here") = 0%Z.
Proof.
  split.
  - apply (proj1 (match_endofsentence_final_terminator
                    (str "Dr. Smith is here.  ")) 17); reflexivity.
  - apply (proj2 (match_endofsentence_final_terminator
                    (str "Dr. Smith is here"))); reflexivity.
Defined.

(** C6: white space at the end of the text does not change what
    [match_endofsentence] returns, and a text of white space only, the
    empty text among them, gives 0. *)
Theorem match_endofsentence_trailing_whitespace (t w : text) :
  forallb isspace w = true ->
  match_endofsentence (t ++ w) = match_endofsentence t
  /\ match_endofsentence w = 0%Z.
Proof.
  intros Hw; unfold match_endofsentence.
  rewrite (rstrip_app_spaces t w Hw), (rstrip_spaces w Hw).
  split; reflexivity.
Qed.

Lemma match_endofsentence_trailing_whitespace_witness :
  match_endofsentence (str "Hello world." ++ [32; 9; 10; 0x3000])%Z
  = match_endofsentence (str "Hello world.")
  /\ match_endofsentence [32; 9; 10; 0x3000]%Z = 0%Z.
Proof.
  apply (match_endofsentence_trailing_whitespace
           (str "Hello world.") [32; 9; 10; 0x3000]%Z).
  reflexivity.
Defined.

(** ** [DeepgramTTSService.run_tts] *)

Import Deepgram.

Section Chunks.

Variable size : nat.
Hypothesis size_pos : 0 < size.

Lemma firstn_cons_pos (A : Type) (x : A) (l : list A) :
  firstn size (x :: l) = x :: firstn (size - 1) l.
Proof.
  destruct size as [|n]; [lia|]; cbn; now rewrite Nat.sub_0_r.
Qed.

Lemma skipn_cons_short (A : Type) (x : A) (l : list A) :
  length (skipn size (x :: l)) <= length l.
Proof. rewrite length_skipn; cbn [length]; lia. Qed.

Lemma chunks_concat (fuel : nat) (data : list Byte.byte) :
  length data <= fuel -> concat (chunks fuel size data) = data.
Proof.
  revert data; induction fuel as [|fuel IH]; intros [|x data] Hf;
    try reflexivity; [cbn in Hf; lia|].
  cbn [chunks concat].
  rewrite IH by (pose proof (skipn_cons_short _ x data); cbn in Hf; lia).
  apply firstn_skipn.
Qed.

Lemma chunks_bounds (fuel : nat) (data : list Byte.byte) :
  Forall (fun c => 1 <= length c <= size) (chunks fuel size data).
Proof.
  revert data; induction fuel as [|fuel IH]; intros [|x data];
    try constructor; [|apply IH].
  rewrite firstn_cons_pos; cbn [length].
  pose proof (firstn_le_length (size - 1) data); lia.
Qed.

Lemma chunks_nonempty (fuel : nat) (data : list Byte.byte) :
  data <> [] -> 0 < fuel -> 1 <= length (chunks fuel size data).
Proof.
  destruct fuel; [lia|]; destruct data; [congruence|]; cbn; lia.
Qed.

End Chunks.

Lemma chunk_size_pos : 0 < chunk_size.
Proof. unfold chunk_size; lia. Qed.

Lemma skipn_firstn_length (A : Type) (n : nat) (l : list A) :
  skipn (length (firstn n l)) l = skipn n l.
Proof.
  revert n; induction l as [|x l IH]; intros [|n]; try reflexivity.
  cbn; apply IH.
Qed.

Section GenEquations.

Context {A B : Type}.

Lemma bind_returned (fs : list Frame) (a : A) (f : A -> Gen B) :
  bind (fs, Returned a) f = (fs ++ fst (f a), snd (f a)).
Proof. unfold bind; destruct (f a); reflexivity. Qed.

Lemma bind_raised (fs : list Frame) (e : BaseException) (f : A -> Gen B) :
  bind (fs, Raised e) f = (fs, Raised e).
Proof. reflexivity. Qed.

Lemma try_except_returned (fs : list Frame) (a : A) h :
  try_except (fs, Returned a) h = (fs, Returned a).
Proof. reflexivity. Qed.

Lemma try_except_raised (fs : list Frame) (e : BaseException)
    (h : BaseException -> Gen A) :
  is_Exception e = true ->
  try_except (fs, Raised e) h = (fs ++ fst (h e), snd (h e)).
Proof. intros He; unfold try_except; rewrite He; destruct (h e); reflexivity. Qed.

Lemma try_except_escaped (fs : list Frame) (e : BaseException)
    (h : BaseException -> Gen A) :
  is_Exception e = false ->
  try_except (fs, Raised e) h = (fs, Raised e).
Proof. intros He; unfold try_except; now rewrite He. Qed.

End GenEquations.

(** One turn of the loop on an open buffer. *)
Lemma read_loop_step (fuel : nat) (self : DeepgramTTSService) (b : BytesIO) :
  closed b = false ->
  read_loop (S fuel) self b
  = match firstn chunk_size (skipn (tell b) (getvalue b)) with
    | [] => ([], Returned tt)
    | x :: c =>
        let next :=
          read_loop fuel self
            {| getvalue := getvalue b;
               tell := tell b + length (x :: c);
               closed := false |} in
        (chunk_frames self (x :: c) ++ fst next, snd next)
    end.
Proof.
  intros Hc; cbn [read_loop]; unfold read; rewrite Hc.
  unfold await, ret; rewrite bind_returned; cbn [fst snd app].
  destruct (firstn chunk_size (skipn (tell b) (getvalue b))) as [|x c];
    [reflexivity|].
  unfold emit; rewrite !bind_returned; reflexivity.
Qed.

(** With fuel above the number of bytes left the loop comes to its end and
    has put out the frames of the chunks left, in order. *)
Lemma read_loop_chunks (self : DeepgramTTSService) (fuel : nat) (b : BytesIO) :
  closed b = false ->
  length (skipn (tell b) (getvalue b)) <= fuel ->
  read_loop (S fuel) self b
  = (flat_map (chunk_frames self)
       (chunks fuel chunk_size (skipn (tell b) (getvalue b))),
     Returned tt).
Proof.
  revert b; induction fuel as [|fuel IH]; intros b Hc Hf;
    rewrite read_loop_step by exact Hc.
  - destruct (skipn (tell b) (getvalue b)); [|cbn in Hf; lia].
    now rewrite firstn_nil.
  - destruct (skipn (tell b) (getvalue b)) as [|x rest] eqn:Hrest.
    + now rewrite firstn_nil.
    + rewrite (firstn_cons_pos _ chunk_size_pos) at 1.
      rewrite <- (firstn_cons_pos _ chunk_size_pos).
      cbn zeta. rewrite IH; cbn [closed tell getvalue]; [|reflexivity|].
      * rewrite Nat.add_comm, <- skipn_skipn, Hrest, skipn_firstn_length.
        reflexivity.
      * rewrite Nat.add_comm, <- skipn_skipn, Hrest, skipn_firstn_length.
        pose proof (skipn_cons_short _ chunk_size_pos _ x rest); cbn in Hf; lia.
Qed.

(** The four ways the body of the [try] can go. *)
Section RunTtsBody.

Variables (client : DeepgramClient) (self : DeepgramTTSService) (text : string).

Lemma run_tts_body_request_error (e : BaseException) :
  speak_stream client text (options self) = Err e ->
  run_tts_body client self text = ([], Raised e).
Proof.
  intros Hr; unfold run_tts_body; rewrite Hr.
  unfold await, raise; now rewrite bind_raised.
Qed.

Lemma run_tts_body_no_audio (response : SpeakResponse) :
  speak_stream client text (options self) = Ok response ->
  stream_memory response = None ->
  run_tts_body client self text
  = ([TTSStartedFrame],
     Raised (ValueError "No audio data received from Deepgram")).
Proof.
  intros Hr Hm; unfold run_tts_body; rewrite Hr.
  unfold await at 1, ret; rewrite bind_returned.
  unfold emit; rewrite bind_returned, Hm.
  reflexivity.
Qed.

Lemma run_tts_body_closed (response : SpeakResponse) (b : BytesIO) :
  speak_stream client text (options self) = Ok response ->
  stream_memory response = Some b ->
  closed b = true ->
  run_tts_body client self text = ([TTSStartedFrame], Raised closed_file).
Proof.
  intros Hr Hm Hc; unfold run_tts_body; rewrite Hr.
  unfold await at 1, ret; rewrite bind_returned.
  unfold emit; rewrite bind_returned, Hm.
  unfold seek; rewrite Hc.
  unfold await, raise; now rewrite bind_raised.
Qed.

Lemma run_tts_body_open (response : SpeakResponse) (b : BytesIO) :
  speak_stream client text (options self) = Ok response ->
  stream_memory response = Some b ->
  closed b = false ->
  run_tts_body client self text
  = (TTSStartedFrame :: flat_map (chunk_frames self) (audio_chunks b),
     Returned tt).
Proof.
  intros Hr Hm Hc; unfold run_tts_body; rewrite Hr.
  unfold await at 1, ret; rewrite bind_returned.
  unfold emit; rewrite bind_returned, Hm.
  unfold seek; rewrite Hc.
  unfold await, ret; rewrite bind_returned.
  rewrite read_loop_chunks by (cbn [closed tell getvalue skipn]; auto).
  reflexivity.
Qed.

End RunTtsBody.

(** C7, as stated, fails: when the request is cancelled, the
    [CancelledError] raised at its [await] is no [Exception]; [run_tts]
    raises it and puts no [ErrorFrame] on the stream. *)
Lemma run_tts_cancelled_counterexample :
  is_Exception CancelledError = false
  /\ run_tts cancelled_client default_tts "hi" = ([], Raised CancelledError).
Proof. split; reflexivity. Qed.

(** C7, amended: [run_tts] lets no instance of [Exception] escape: such an
    exception raised in its body, by the request, by the missing audio
    buffer or by reading the buffer, is caught and an [ErrorFrame] with its
    message is put last on the stream, after which [run_tts] returns; when
    the request raises nothing else, [run_tts] always returns.  An
    exception that is no instance of [Exception] goes through with no
    [ErrorFrame]. *)
Theorem run_tts_catches_Exception (client : DeepgramClient)
    (self : DeepgramTTSService) (text : string) :
  (forall e, snd (run_tts_body client self text) = Raised e ->
     run_tts client self text
     = if is_Exception e
       then (fst (run_tts_body client self text)
               ++ [ErrorFrame ("Error getting audio: " ++ exc_str e)%string],
             Returned tt)
       else (fst (run_tts_body client self text), Raised e))
  /\ ((forall e, speak_stream client text (options self) = Err e ->
                 is_Exception e = true) ->
      snd (run_tts client self text) = Returned tt)
  /\ match speak_stream client text (options self) with
     | Err e =>
         run_tts client self text
         = if is_Exception e
           then ([ErrorFrame ("Error getting audio: " ++ exc_str e)%string],
                 Returned tt)
           else ([], Raised e)
     | Ok response =>
         match stream_memory response with
         | None =>
             run_tts client self text
             = ([TTSStartedFrame;
                 ErrorFrame
                   "Error getting audio: No audio data received from Deepgram"],
                Returned tt)
         | Some audio_buffer =>
             if closed audio_buffer then
               run_tts client self text
               = ([TTSStartedFrame;
                   ErrorFrame
                     "Error getting audio: I/O operation on closed file."],
                  Returned tt)
             else
               run_tts client self text
               = (TTSStartedFrame
                    :: flat_map (chunk_frames self) (audio_chunks audio_buffer),
                  Returned tt)
         end
     end.
Proof.
  assert (Hcatch : forall fs e,
             run_tts_body client self text = (fs, Raised e) ->
             run_tts client self text
             = if is_Exception e
               then (fs ++ [ErrorFrame ("Error getting audio: "
                                        ++ exc_str e)%string],
                     Returned tt)
               else (fs, Raised e)).
  { intros fs e H; unfold run_tts; rewrite H.
    destruct (is_Exception e) eqn:He;
      [now rewrite try_except_raised | now rewrite try_except_escaped]. }
  destruct (speak_stream client text (options self)) as [response|e] eqn:Hr.
  - destruct (stream_memory response) as [b|] eqn:Hm.
    + destruct (closed b) eqn:Hc.
      * pose proof (run_tts_body_closed _ _ _ _ _ Hr Hm Hc) as Hb.
        rewrite (Hcatch _ _ Hb), Hb; cbn [is_Exception closed_file ValueError].
        repeat split. intros e He; injection He as <-; reflexivity.
      * pose proof (run_tts_body_open _ _ _ _ _ Hr Hm Hc) as Hb.
        unfold run_tts; rewrite Hb, try_except_returned.
        repeat split. intros e He; discriminate He.
    + pose proof (run_tts_body_no_audio _ _ _ _ Hr Hm) as Hb.
      rewrite (Hcatch _ _ Hb), Hb; cbn [is_Exception ValueError].
      repeat split. intros e He; injection He as <-; reflexivity.
  - pose proof (run_tts_body_request_error _ _ _ _ Hr) as Hb.
    rewrite (Hcatch _ _ Hb), Hb.
    split; [|split].
    + intros e' He; injection He as <-; reflexivity.
    + intros Hall; now rewrite (Hall e eq_refl).
    + reflexivity.
Qed.

Lemma run_tts_catches_Exception_witness :
  run_tts failing_client default_tts "hi"
  = ([ErrorFrame "Error getting audio: connection refused"], Returned tt)
  /\ snd (run_tts sample_client default_tts "hi") = Returned tt.
Proof.
  split.
  - apply (proj1 (run_tts_catches_Exception failing_client default_tts "hi")
             (ValueError "connection refused")).
    reflexivity.
  - apply (proj1 (proj2 (run_tts_catches_Exception
                           sample_client default_tts "hi"))).
    intros e He; discriminate He.
Defined.

Lemma stopped_per_chunk (self : DeepgramTTSService) (cs : list (list Byte.byte)) :
  length (filter is_stopped (flat_map (chunk_frames self) cs)) = length cs.
Proof. induction cs as [|c cs IH]; cbn; [reflexivity | now rewrite IH]. Qed.

(** C10: when the request succeeds and the response holds audio,
    [run_tts] puts out one [TTSStartedFrame] and then, for each chunk of
    the response in order, one [TTSAudioRawFrame] with that chunk, the
    configured sample rate and one channel, followed at once by one
    [TTSStoppedFrame]; there is at least one chunk, each has between 1 and
    8192 bytes, together they are the response, and there are as many
    [TTSStoppedFrame]s as chunks. *)
Theorem run_tts_stream_shape (client : DeepgramClient)
    (self : DeepgramTTSService) (text : string)
    (response : SpeakResponse) (audio_buffer : BytesIO) :
  speak_stream client text (options self) = Ok response ->
  stream_memory response = Some audio_buffer ->
  closed audio_buffer = false ->
  getvalue audio_buffer <> [] ->
  run_tts client self text
  = (TTSStartedFrame
       :: flat_map
            (fun chunk =>
               [TTSAudioRawFrame chunk (sample_rate (_settings self)) 1;
                TTSStoppedFrame])
            (audio_chunks audio_buffer),
     Returned tt)
  /\ 1 <= length (audio_chunks audio_buffer)
  /\ concat (audio_chunks audio_buffer) = getvalue audio_buffer
  /\ Forall (fun chunk => 1 <= Z.of_nat (length chunk) <= 8192)%Z
       (audio_chunks audio_buffer)
  /\ length (filter is_stopped (fst (run_tts client self text)))
     = length (audio_chunks audio_buffer).
Proof.
  intros Hr Hm Hc Hdata.
  assert (Hrun : run_tts client self text
                 = (TTSStartedFrame
                      :: flat_map (chunk_frames self) (audio_chunks audio_buffer),
                    Returned tt)).
  { unfold run_tts.
    rewrite (run_tts_body_open _ _ _ _ _ Hr Hm Hc).
    apply try_except_returned. }
  split; [exact Hrun|]. split; [|split; [|split]].
  - apply chunks_nonempty; [exact chunk_size_pos | exact Hdata |].
    destruct (getvalue audio_buffer); [congruence | cbn; lia].
  - apply chunks_concat; [exact chunk_size_pos | lia].
  - unfold audio_chunks.
    eapply Forall_impl; [|apply (chunks_bounds _ chunk_size_pos)].
    intros chunk H; cbv beta in H. unfold chunk_size in H; lia.
  - rewrite Hrun; cbn [fst filter is_stopped]. apply stopped_per_chunk.
Qed.

Lemma run_tts_stream_shape_witness :
  run_tts sample_client default_tts "hi"
  = (TTSStartedFrame
       :: flat_map
            (fun chunk =>
               [TTSAudioRawFrame chunk (sample_rate (_settings default_tts)) 1;
                TTSStoppedFrame])
            (audio_chunks sample_buffer),
     Returned tt)
  /\ 1 <= length (audio_chunks sample_buffer)
  /\ concat (audio_chunks sample_buffer) = getvalue sample_buffer
  /\ Forall (fun chunk => 1 <= Z.of_nat (length chunk) <= 8192)%Z
       (audio_chunks sample_buffer)
  /\ length (filter is_stopped (fst (run_tts sample_client default_tts "hi")))
     = length (audio_chunks sample_buffer).
Proof.
  apply (run_tts_stream_shape sample_client default_tts "hi"
           {| stream_memory := Some sample_buffer |} sample_buffer
           eq_refl eq_refl eq_refl).
  intros H; exact (app_cons_not_nil _ _ _ (eq_sym H)).
Defined.

(** The stream of the sample response: 8192 bytes, then the one left. *)
Example run_tts_sample_stream :
  fst (run_tts sample_client default_tts "hi")
  = [TTSStartedFrame;
     TTSAudioRawFrame (repeat Byte.x00 chunk_size) 24000 1; TTSStoppedFrame;
     TTSAudioRawFrame [Byte.x01] 24000 1; TTSStoppedFrame].
Proof. vm_compute; reflexivity. Qed.

(** ** [DeepgramSTTService._on_message] *)


Lemma bind_ret (A B : Type) (a : A) (f : A -> Gen B) : bind (ret a) f = f a.
Proof. unfold bind, ret; destruct (f a); reflexivity. Qed.

Lemma filter_metrics (p : Frame -> bool) (data : list string) :
  (forall d, p (MetricsFrame d) = false) ->
  filter p (map MetricsFrame data) = [].
Proof.
  intros Hp; induction data as [|d data IH]; [reflexivity|].
  cbn [map filter]; now rewrite Hp.
Qed.

(** What [_on_message] does once the language is settled and the
    transcript is not empty. *)
Lemma on_message_body (rt : Runtime) (self : DeepgramSTTService)
    (final : bool) (text : string) (language : option string) :
  (stop_ttfb_metrics rt ;;;
   (if final then
      push_frame (TranscriptionFrame text "" (time_now_iso8601 rt) language) ;;;
      (if vad_enabled self then push_frame UserStoppedSpeakingFrame
       else ret tt) ;;;
      stop_processing_metrics rt
    else
      push_frame (InterimTranscriptionFrame
                    text "" (time_now_iso8601 rt) language)))
  = (map MetricsFrame (stop_ttfb_metrics_data rt)
       ++ (if final then TranscriptionFrame else InterimTranscriptionFrame)
            text "" (time_now_iso8601 rt) language
          :: (if final
              then (if vad_enabled self then [UserStoppedSpeakingFrame]
                    else [])
                   ++ map MetricsFrame (stop_processing_metrics_data rt)
              else []),
     Returned tt).
Proof.
  unfold stop_ttfb_metrics, stop_processing_metrics, push_metrics,
    push_frame, emit, ret.
  rewrite bind_returned.
  destruct final, (vad_enabled self); rewrite ?bind_returned; reflexivity.
Qed.




(** * Further properties of the code *)

(** ** Text that streams in: what follows a position does not matter *)

Section Appending.

Variables t u : text.

Lemma holds_at_app (p : nat) (ps : list (char -> bool)) :
  p + length ps <= length t -> holds_at (t ++ u) p ps = holds_at t p ps.
Proof.
  revert p; induction ps as [|f ps IH]; intros p Hp; [reflexivity|].
  cbn [holds_at length] in *.
  rewrite nth_error_app1 by lia.
  destruct (nth_error t p); [|reflexivity].
  rewrite IH by lia; reflexivity.
Qed.

Lemma preceded_by_app (i : nat) (ps : list (char -> bool)) :
  i <= length t -> preceded_by (t ++ u) i ps = preceded_by t i ps.
Proof.
  intros Hi; unfold preceded_by.
  destruct (Nat.leb_spec (length ps) i); [|reflexivity].
  rewrite holds_at_app by lia; reflexivity.
Qed.

Lemma suppressed_app (i : nat) :
  i <= length t -> suppressed (t ++ u) i = suppressed t i.
Proof.
  intros Hi; unfold suppressed.
  induction contexts as [|ps l IH]; [reflexivity|].
  cbn [existsb]; now rewrite preceded_by_app, IH.
Qed.

Lemma boundary_of_app (which : char -> bool) (i : nat) :
  i < length t -> boundary_of which (t ++ u) i = boundary_of which t i.
Proof.
  intros Hi; unfold boundary_of.
  rewrite nth_error_app1, suppressed_app by lia; reflexivity.
Qed.

(** The offsets found in [t ++ u] are those found in [t], then those of
    the terminators that lie in [u]. *)
Lemma end_indices_app :
  end_indices (t ++ u)
  = end_indices t
    ++ map (fun i => Z.of_nat (S i))
         (filter (boundary (t ++ u)) (seq (length t) (length u))).
Proof.
  rewrite !end_indices_offsets; unfold offsets_after.
  rewrite length_app, seq_app, filter_app, map_app; cbn [Nat.add].
  do 2 f_equal. apply filter_ext_in.
  intros i Hi; apply in_seq in Hi.
  apply boundary_of_app; lia.
Qed.

End Appending.

Lemma end_indices_range (t : text) :
  Forall (fun n => 0 < n <= Z.of_nat (length t))%Z (end_indices t).
Proof.
  rewrite end_indices_offsets; unfold offsets_after.
  apply Forall_forall; intros n Hn.
  apply in_map_iff in Hn as (i & <- & Hi).
  apply filter_In in Hi as [Hi _]; apply in_seq in Hi; lia.
Qed.

Lemma last_range (P : Z -> Prop) (l : list Z) (d : Z) :
  Forall P l -> l <> [] -> P (last l d).
Proof.
  intros Hl Hne.
  destruct (exists_last Hne) as (l' & x & ->).
  rewrite last_last. apply Forall_app in Hl as [_ Hx]; now inversion Hx.
Qed.

Lemma space_not_terminator (c : char) :
  isspace c = true -> is_terminator c = false.
Proof.
  intros Hs; apply not_true_is_false; intros Ht.
  unfold is_terminator, is_ascii_terminator, is_fullwidth_terminator in Ht.
  cbn in Ht.
  repeat match type of Ht with
         | (_ || _)%bool = true => apply orb_true_iff in Ht as [Ht|Ht]
         | (c =? _)%Z = true => apply Z.eqb_eq in Ht; subst c; discriminate Hs
         end; discriminate Ht.
Qed.

Lemma filter_none (A : Type) (f : A -> bool) (l : list A) :
  (forall x, In x l -> f x = false) -> filter f l = [].
Proof.
  induction l as [|x l IH]; intros H; [reflexivity|]; cbn.
  rewrite (H x) by (now left). apply IH; intros y Hy; apply H; now right.
Qed.

Lemma find_endofsentences_int (t : text) :
  exists n, find_endofsentences t = Int n
            /\ n = last (end_indices t) 0%Z
            /\ (0 <= n <= Z.of_nat (length t))%Z.
Proof.
  exists (last (end_indices t) 0%Z); split; [apply find_endofsentences_last|].
  split; [reflexivity|].
  destruct (end_indices t) as [|x l] eqn:E; [cbn; lia|].
  assert (H : (0 < last (x :: l) 0 <= Z.of_nat (length t))%Z).
  { apply (last_range (fun n => 0 < n <= Z.of_nat (length t))%Z);
      [rewrite <- E; apply end_indices_range | discriminate]. }
  lia.
Qed.

(** X1: sentence ends stay where they are when more text arrives: the
    offsets found in [t] are a prefix of those found in [t ++ u], the new
    ones all lie beyond [t], and what [find_endofsentences] returns never
    goes down. *)
Theorem find_endofsentences_streaming (t u : text) :
  exists later,
    end_indices (t ++ u) = end_indices t ++ later
    /\ Forall (fun n => Z.of_nat (length t) < n)%Z later
    /\ exists a b,
         find_endofsentences t = Int a
         /\ find_endofsentences (t ++ u) = Int b
         /\ (a <= b)%Z.
Proof.
  eexists; split; [apply end_indices_app|].
  assert (Hlater : Forall (fun n => Z.of_nat (length t) < n)%Z
            (map (fun i => Z.of_nat (S i))
               (filter (boundary (t ++ u)) (seq (length t) (length u))))).
  { apply Forall_forall; intros n Hn.
    apply in_map_iff in Hn as (i & <- & Hi).
    apply filter_In in Hi as [Hi _]; apply in_seq in Hi; lia. }
  split; [exact Hlater|].
  destruct (find_endofsentences_int t) as (a & Ha & Hla & Hra).
  exists a, (last (end_indices (t ++ u)) 0%Z).
  split; [exact Ha|]; split; [apply find_endofsentences_last|].
  rewrite end_indices_app.
  destruct (map _ (filter _ (seq (length t) (length u)))) as [|x l] eqn:E.
  - rewrite app_nil_r; lia.
  - destruct (exists_last (l:=x :: l)) as (l' & y & Hy); [discriminate|].
    rewrite Hy, app_assoc, last_last.
    rewrite Hy in Hlater; apply Forall_app in Hlater as [_ Hlast].
    inversion Hlast; lia.
Qed.

Lemma end_indices_app_plain (t u : text) :
  (forall c, In c u -> is_terminator c = false) ->
  end_indices (t ++ u) = end_indices t.
Proof.
  intros Hu; rewrite end_indices_app.
  replace (filter _ (seq (length t) (length u))) with (@nil nat);
    [apply app_nil_r|].
  symmetry; apply filter_none; intros i Hi; apply in_seq in Hi.
  unfold boundary, boundary_of.
  rewrite nth_error_app2 by lia.
  destruct (nth_error u (i - length t)) as [c|] eqn:Hc; [|reflexivity].
  apply nth_error_In in Hc. now rewrite (Hu c Hc).
Qed.

(** X2: text without terminators at the end, white space among it, does
    not change what [find_endofsentences] returns. *)
Theorem find_endofsentences_trailing (t u : text) :
  (forall c, In c u -> isspace c = true \/ is_terminator c = false) ->
  end_indices (t ++ u) = end_indices t
  /\ find_endofsentences (t ++ u) = find_endofsentences t.
Proof.
  intros Hu.
  assert (H : end_indices (t ++ u) = end_indices t).
  { apply end_indices_app_plain; intros c Hc.
    destruct (Hu c Hc) as [Hs|Hn]; [now apply space_not_terminator | exact Hn]. }
  split; [exact H|].
  now rewrite !find_endofsentences_last, H.
Qed.

Lemma find_endofsentences_trailing_witness :
  end_indices (str "Hi there. Bye" ++ [32; 10; 0x3000])%Z
  = end_indices (str "Hi there. Bye")
  /\ find_endofsentences (str "Hi there. Bye" ++ [32; 10; 0x3000])%Z
     = find_endofsentences (str "Hi there. Bye").
Proof.
  apply (find_endofsentences_trailing (str "Hi there. Bye") [32; 10; 0x3000]%Z).
  intros c Hc; left.
  repeat (destruct Hc as [<-|Hc]; [reflexivity|]); destruct Hc.
Defined.

(** ** More on [match_endofsentence] *)

Lemma rstrip_end_suffix (s : text) (j i : nat) :
  rstrip_end s j <= i < j -> isspace (nth i s 0%Z) = true.
Proof.
  induction j as [|j IH]; cbn [rstrip_end]; [lia|].
  destruct (isspace (nth j s 0%Z)) eqn:E; [|lia].
  intros Hi; destruct (Nat.eq_dec i j) as [->|]; [exact E | apply IH; lia].
Qed.

(** What [rstrip] cuts off is white space. *)
Lemma rstrip_cut (s : text) :
  s = rstrip s ++ skipn (rstrip_end s (length s)) s
  /\ forallb isspace (skipn (rstrip_end s (length s)) s) = true.
Proof.
  split; [symmetry; apply firstn_skipn|].
  apply forallb_forall; intros x Hx.
  apply (In_nth _ _ 0%Z) in Hx as (n & Hn & <-).
  rewrite length_skipn in Hn. rewrite nth_skipn.
  apply (rstrip_end_suffix s (length s)); lia.
Qed.

(** In a trimmed text only the last index can hold a full-width
    terminator on which the text ends. *)
Lemma fullwidth_end_early (s : text) (j : nat) :
  S j < length (rstrip s) -> fullwidth_end (rstrip s) j = false.
Proof.
  intros Hj; unfold fullwidth_end.
  destruct (nth_error (rstrip s) j); [|reflexivity].
  apply andb_false_iff; right; unfold at_end.
  apply orb_false_iff; split; [apply Nat.eqb_neq; lia|].
  apply andb_false_iff.
  destruct (Nat.eq_dec (S (S j)) (length (rstrip s))) as [He|Hne];
    [right | left; apply Nat.eqb_neq; lia].
  pose proof (rstrip_last_not_space s (S j) (eq_sym He)) as Hsp.
  apply Z.eqb_neq; intros Hnl; rewrite Hnl in Hsp; discriminate.
Qed.

Lemma boundary_of_lt (which : char -> bool) (t : text) (i : nat) :
  boundary_of which t i = true -> i < length t.
Proof.
  intros H; destruct (Nat.lt_ge_cases i (length t)) as [|Hge]; [assumption|].
  rewrite boundary_of_range in H by exact Hge; discriminate.
Qed.

Lemma last_index (t : text) (n : nat) :
  length t = S n -> exists c, nth_error t n = Some c /\ last t 0%Z = c.
Proof.
  intros Hl; destruct (nth_error t n) as [c|] eqn:Hc.
  - exists c; split; [reflexivity|].
    apply (last_nth_error t n c 0%Z Hc); lia.
  - apply nth_error_None in Hc; lia.
Qed.

(** X3: what [match_endofsentence] returns, in full: the offset right
    after the first non-suppressed ASCII terminator of the trimmed text
    when it has one; otherwise the length of the trimmed text when that
    ends on a full-width terminator, and 0 when it does not. *)
Theorem match_endofsentence_first_ascii (s : text) :
  let t := rstrip s in
  (forall i,
      ascii_boundary t i = true ->
      existsb (ascii_boundary t) (seq 0 i) = false ->
      match_endofsentence s = Z.of_nat (S i))
  /\ (existsb (ascii_boundary t) (seq 0 (length t)) = false ->
      match_endofsentence s
      = if is_fullwidth_terminator (last t 0%Z) then Z.of_nat (length t)
        else 0%Z).
Proof.
  intros t.
  assert (Hbefore : forall n,
             n < length t ->
             existsb (ascii_boundary t) (seq 0 n) = false ->
             existsb (fun i => ascii_boundary t i || fullwidth_end t i)
               (seq 0 n) = false).
  { intros n Hn Hascii.
    apply not_true_is_false; intros H.
    apply existsb_exists in H as (j & Hin & Hj); apply in_seq in Hin.
    apply orb_true_iff in Hj as [Hj|Hj].
    - assert (existsb (ascii_boundary t) (seq 0 n) = true)
        by (apply existsb_exists; exists j; split; [apply in_seq; lia | auto]).
      congruence.
    - unfold t in Hj; rewrite fullwidth_end_early in Hj by (fold t; lia).
      discriminate. }
  split.
  - intros i Hi Hnone.
    pose proof (boundary_of_lt _ _ _ Hi) as Hlt.
    rewrite match_endofsentence_first; fold t.
    rewrite (find_first _ 0 (S (length t)) i); [reflexivity| | |lia].
    + rewrite Nat.sub_0_r; now apply Hbefore.
    + now rewrite Hi.
  - intros Hnone.
    rewrite match_endofsentence_first; fold t.
    destruct (length t) as [|n] eqn:Hlen.
    + apply length_zero_iff_nil in Hlen; rewrite Hlen; reflexivity.
    + destruct (last_index t n Hlen) as (c & Hc & Hlast); rewrite Hlast.
      assert (Hn : existsb (ascii_boundary t) (seq 0 n) = false).
      { rewrite seq_S, existsb_app in Hnone.
        now apply orb_false_iff in Hnone as [Hnone _]. }
      assert (Hend : fullwidth_end t n = is_fullwidth_terminator c).
      { unfold fullwidth_end, at_end; rewrite Hc, Hlen, Nat.eqb_refl.
        cbn; apply andb_true_r. }
      destruct (is_fullwidth_terminator c) eqn:Hfw.
      * rewrite (find_first _ 0 (S (S n)) n); [reflexivity| | |lia].
        -- rewrite Nat.sub_0_r; apply Hbefore; [lia | exact Hn].
        -- rewrite Hend; apply orb_true_r.
      * assert (Han : ascii_boundary t n = false).
        { rewrite seq_S, existsb_app in Hnone; cbn [existsb Nat.add] in Hnone.
          apply orb_false_iff in Hnone as [_ Hnone].
          now rewrite orb_false_r in Hnone. }
        assert (Haout : ascii_boundary t (S n) = false)
          by (apply boundary_of_range; lia).
        assert (Hfout : fullwidth_end t (S n) = false)
          by (apply fullwidth_end_range; lia).
        rewrite find_nowhere; [reflexivity|].
        rewrite seq_S, existsb_app; cbn [existsb Nat.add].
        rewrite seq_S, existsb_app; cbn [existsb Nat.add].
        rewrite (Hbefore n) by (auto; lia).
        now rewrite Han, Hend, Haout, Hfout.
Qed.

Lemma match_endofsentence_first_ascii_witness :
  match_endofsentence (str "Mr. Hyde left. He ran. ") = 14%Z
  /\ match_endofsentence (str "Mr" ++ [0xFF01; 32])%Z = 3%Z.
Proof.
  split.
  - apply (proj1 (match_endofsentence_first_ascii
                    (str "Mr. Hyde left. He ran. ")) 13); reflexivity.
  - apply (proj2 (match_endofsentence_first_ascii
                    (str "Mr" ++ [0xFF01; 32])%Z)); reflexivity.
Defined.

(** X4: the offset that [match_endofsentence] returns is a position of the
    text: it does not go beyond the trimmed text, and when it is not 0 the
    character right before it in the text is a terminator. *)
Theorem match_endofsentence_offset (s : text) :
  exists n,
    match_endofsentence s = Z.of_nat n
    /\ n <= length (rstrip s) <= length s
    /\ (n = 0
        \/ exists c, nth_error s (n - 1) = Some c /\ is_terminator c = true).
Proof.
  assert (Hlen : length (rstrip s) <= length s)
    by (rewrite rstrip_length; apply rstrip_end_le).
  rewrite match_endofsentence_first.
  destruct (find _ _) as [i|] eqn:F.
  - apply find_some in F as [_ Hi].
    assert (Hc : exists c, nth_error (rstrip s) i = Some c
                           /\ is_terminator c = true).
    { unfold ascii_boundary, boundary_of, fullwidth_end, is_terminator in *.
      destruct (nth_error (rstrip s) i) as [c|]; [|discriminate].
      exists c; split; [reflexivity|].
      apply orb_true_iff in Hi as [Hi|Hi];
        apply andb_true_iff in Hi as [Hi _]; rewrite Hi;
        [reflexivity | apply orb_true_r]. }
    destruct Hc as (c & Hc & Hterm).
    assert (Hlt : i < length (rstrip s))
      by (apply nth_error_Some; congruence).
    exists (S i); split; [reflexivity|]; split; [lia|].
    right; exists c; split; [|exact Hterm].
    unfold rstrip in Hc; rewrite nth_error_firstn in Hc.
    cbn [Nat.sub]; rewrite Nat.sub_0_r.
    destruct (Nat.ltb i (rstrip_end s (length s))); [exact Hc | discriminate].
  - exists 0; split; [reflexivity|]; split; [lia | now left].
Qed.

Lemma hd_map_filter (f : nat -> Z) (b : nat -> bool) (l : list nat) :
  hd 0%Z (map f (filter b l))
  = match find b l with Some i => f i | None => 0%Z end.
Proof.
  induction l as [|x l IH]; [reflexivity|]; cbn.
  destruct (b x); [reflexivity | exact IH].
Qed.

Lemma find_ext_in (f g : nat -> bool) (l : list nat) :
  (forall x, In x l -> f x = g x) -> find f l = find g l.
Proof.
  induction l as [|x l IH]; intros H; [reflexivity|]; cbn.
  rewrite (H x) by (now left).
  destruct (g x); [reflexivity|]. apply IH; intros y Hy; apply H; now right.
Qed.

Lemma find_app_none (f : nat -> bool) (l : list nat) (x : nat) :
  f x = false -> find f (l ++ [x]) = find f l.
Proof.
  intros Hx; induction l as [|y l IH]; cbn; [now rewrite Hx|].
  destruct (f y); [reflexivity | exact IH].
Qed.

(** X5: on a text without full-width terminators the two functions read
    the same list of offsets from its two ends: [match_endofsentence]
    returns the first offset that [finditer] reports, or 0, while
    [find_endofsentences] returns the last, or 0. *)
Theorem match_first_find_last (s : text) :
  existsb is_fullwidth_terminator s = false ->
  match_endofsentence s = hd 0%Z (end_indices s)
  /\ find_endofsentences s = Int (last (end_indices s) 0%Z).
Proof.
  intros Hfw; split; [|apply find_endofsentences_last].
  destruct (rstrip_cut s) as [Hs Hw].
  set (t := rstrip s) in *; set (w := skipn _ s) in *.
  assert (Ht : forall c, In c t -> is_fullwidth_terminator c = false).
  { intros c Hc. rewrite Hs, existsb_app in Hfw.
    apply orb_false_iff in Hfw as [Hfw _].
    apply not_true_is_false; intros Hc'.
    assert (existsb is_fullwidth_terminator t = true)
      by (apply existsb_exists; exists c; auto).
    congruence. }
  rewrite Hs at 2.
  rewrite end_indices_app_plain.
  2:{ intros c Hc; apply space_not_terminator.
      rewrite forallb_forall in Hw; now apply Hw. }
  rewrite match_endofsentence_first; fold t.
  rewrite end_indices_offsets; unfold offsets_after.
  rewrite hd_map_filter.
  rewrite (find_ext_in _ (boundary t)).
  - rewrite seq_S; cbn [Nat.add].
    rewrite find_app_none; [reflexivity|].
    apply boundary_of_range; lia.
  - intros i _.
    unfold ascii_boundary, boundary, boundary_of, fullwidth_end, is_terminator.
    destruct (nth_error t i) as [c|] eqn:Hc; [|reflexivity].
    rewrite (Ht c) by (eapply nth_error_In; eassumption).
    cbn; now rewrite !orb_false_r.
Qed.

Lemma match_first_find_last_witness :
  match_endofsentence (str "Hi there. How are you? Fine!")
  = hd 0%Z (end_indices (str "Hi there. How are you? Fine!"))
  /\ find_endofsentences (str "Hi there. How are you? Fine!")
     = Int (last (end_indices (str "Hi there. How are you? Fine!")) 0%Z).
Proof.
  apply (match_first_find_last (str "Hi there. How are you? Fine!")).
  reflexivity.
Defined.

(** ** More on [run_tts] *)

Lemma audio_payload_chunks (self : DeepgramTTSService)
    (cs : list (list Byte.byte)) :
  audio_payload (flat_map (chunk_frames self) cs) = concat cs.
Proof.
  induction cs as [|c cs IH]; [reflexivity|].
  cbn [flat_map chunk_frames app concat].
  unfold audio_payload in *; cbn [flat_map app].
  now rewrite IH.
Qed.

Lemma audio_sizes_chunks (self : DeepgramTTSService)
    (cs : list (list Byte.byte)) :
  audio_sizes (flat_map (chunk_frames self) cs) = map (@length _) cs.
Proof.
  induction cs as [|c cs IH]; [reflexivity|].
  cbn [flat_map chunk_frames app map].
  unfold audio_sizes in *; cbn [flat_map app]; now rewrite IH.
Qed.

Lemma run_tts_open (client : DeepgramClient) (self : DeepgramTTSService)
    (text : string) (response : SpeakResponse) (b : BytesIO) :
  speak_stream client text (options self) = Ok response ->
  stream_memory response = Some b ->
  closed b = false ->
  run_tts client self text
  = (TTSStartedFrame :: flat_map (chunk_frames self) (audio_chunks b),
     Returned tt).
Proof.
  intros Hr Hm Hc; unfold run_tts.
  rewrite (run_tts_body_open _ _ _ _ _ Hr Hm Hc).
  apply try_except_returned.
Qed.

(** X6: when the request succeeds and its buffer is open, the audio
    frames of the stream carry the bytes of the whole buffer, in order and
    without loss, wherever the position of the buffer was left and also
    when the buffer is empty, and [run_tts] returns. *)
Theorem run_tts_audio_round_trip (client : DeepgramClient)
    (self : DeepgramTTSService) (text : string)
    (response : SpeakResponse) (audio_buffer : BytesIO) :
  speak_stream client text (options self) = Ok response ->
  stream_memory response = Some audio_buffer ->
  closed audio_buffer = false ->
  snd (run_tts client self text) = Returned tt
  /\ audio_payload (fst (run_tts client self text)) = getvalue audio_buffer.
Proof.
  intros Hr Hm Hc; rewrite (run_tts_open _ _ _ _ _ Hr Hm Hc).
  split; [reflexivity|]; cbn [fst].
  change (audio_payload (TTSStartedFrame :: ?l)) with (audio_payload l).
  rewrite audio_payload_chunks.
  apply chunks_concat; [exact chunk_size_pos | lia].
Qed.

Lemma run_tts_audio_round_trip_witness :
  snd (run_tts sample_client default_tts "hi") = Returned tt
  /\ audio_payload (fst (run_tts sample_client default_tts "hi"))
     = getvalue sample_buffer.
Proof.
  apply (run_tts_audio_round_trip sample_client default_tts "hi"
           {| stream_memory := Some sample_buffer |} sample_buffer
           eq_refl eq_refl eq_refl).
Defined.

Section ChunkSizes.

Variable size : nat.
Hypothesis size_pos : 0 < size.

Lemma chunks_nil (fuel : nat) : chunks fuel size [] = [].
Proof. destruct fuel; reflexivity. Qed.

(** The sizes of the chunks of [data]: full ones, then what is left. *)
Lemma chunks_sizes (fuel : nat) (data : list Byte.byte) :
  length data <= fuel ->
  map (@length _) (chunks fuel size data)
  = repeat size (length data / size)
    ++ (if Nat.eqb (length data mod size) 0 then []
        else [length data mod size]).
Proof.
  revert data; induction fuel as [|fuel IH]; intros [|x data] Hf;
    try (cbn [length] in Hf; lia);
    try (rewrite chunks_nil; cbn [length map];
         rewrite Nat.Div0.div_0_l, Nat.Div0.mod_0_l; reflexivity).
  cbn [chunks map].
  assert (Hrest : length (skipn size (x :: data)) <= fuel)
    by (pose proof (skipn_cons_short _ size_pos _ x data); cbn in Hf; lia).
  rewrite (IH _ Hrest), length_firstn, length_skipn.
  set (L := length (x :: data)).
  destruct (Nat.le_gt_cases size L) as [Hle|Hgt].
  - replace (Nat.min size L) with size by lia.
    assert (Hd : L / size = S ((L - size) / size)).
    { replace L with ((L - size) + 1 * size) at 1 by lia.
      rewrite Nat.div_add by lia; lia. }
    assert (Hm : L mod size = (L - size) mod size).
    { replace L with ((L - size) + 1 * size) at 1 by lia.
      apply Nat.Div0.mod_add. }
    rewrite Hd, Hm; reflexivity.
  - replace (Nat.min size L) with L by lia.
    replace (L - size) with 0 by lia.
    rewrite Nat.Div0.div_0_l, Nat.Div0.mod_0_l.
    rewrite (Nat.div_small L size), (Nat.mod_small L size) by lia.
    assert (HL : L <> 0) by (unfold L; cbn; lia).
    apply Nat.eqb_neq in HL; rewrite HL; reflexivity.
Qed.

End ChunkSizes.

(** X7: on a successful request every audio frame but the last carries
    exactly 8192 bytes; the last carries what is left, and there is none
    for nothing: for a buffer of [L] bytes the frames have the sizes
    8192, ..., 8192 ([L / 8192] times) and then [L mod 8192] when that is
    not 0. *)
Theorem run_tts_audio_sizes (client : DeepgramClient)
    (self : DeepgramTTSService) (text : string)
    (response : SpeakResponse) (audio_buffer : BytesIO) :
  speak_stream client text (options self) = Ok response ->
  stream_memory response = Some audio_buffer ->
  closed audio_buffer = false ->
  Z.of_nat chunk_size = 8192%Z
  /\ audio_sizes (fst (run_tts client self text))
     = repeat chunk_size (length (getvalue audio_buffer) / chunk_size)
       ++ (if Nat.eqb (length (getvalue audio_buffer) mod chunk_size) 0
           then []
           else [length (getvalue audio_buffer) mod chunk_size]).
Proof.
  intros Hr Hm Hc; split; [unfold chunk_size; lia|].
  rewrite (run_tts_open _ _ _ _ _ Hr Hm Hc); cbn [fst].
  change (audio_sizes (TTSStartedFrame :: ?l)) with (audio_sizes l).
  rewrite audio_sizes_chunks.
  apply chunks_sizes; [exact chunk_size_pos | lia].
Qed.

Lemma run_tts_audio_sizes_witness :
  Z.of_nat chunk_size = 8192%Z
  /\ audio_sizes (fst (run_tts sample_client default_tts "hi"))
     = repeat chunk_size (length (getvalue sample_buffer) / chunk_size)
       ++ (if Nat.eqb (length (getvalue sample_buffer) mod chunk_size) 0
           then []
           else [length (getvalue sample_buffer) mod chunk_size]).
Proof.
  apply (run_tts_audio_sizes sample_client default_tts "hi"
           {| stream_memory := Some sample_buffer |} sample_buffer
           eq_refl eq_refl eq_refl).
Defined.

(** ** More on the handlers of [DeepgramSTTService] *)

(** X8: when the first alternative names a first language that is not a
    member of [Language], [_on_message] raises [ValueError] before it
    pushes anything: the transcript, final or not, is lost. *)
Theorem on_message_unknown_language (rt : Runtime)
    (self : DeepgramSTTService) (result : LiveResultResponse)
    (alt0 : Alternative) (rest : list Alternative)
    (l : string) (ls : list string) :
  alternatives (channel result) = alt0 :: rest ->
  languages alt0 = l :: ls ->
  is_language rt l = false ->
  exists e,
    _on_message rt self result = ([], Raised e)
    /\ exc_class e = "ValueError".
Proof.
  intros Halt Hl Hno.
  exists (ValueError ("'" ++ l ++ "' is not a valid Language")%string).
  split; [|reflexivity].
  unfold _on_message; rewrite Halt, Hl.
  unfold Language; rewrite Hno.
  unfold await, raise; now rewrite !bind_raised.
Qed.

Lemma on_message_unknown_language_witness :
  exists e,
    _on_message sample_runtime {| vad_events := true |}
      {| channel :=
           {| alternatives :=
                [{| transcript := "bonjour"; languages := ["fr"] |}] |};
         is_final := true |}
    = ([], Raised e)
    /\ exc_class e = "ValueError".
Proof.
  apply (on_message_unknown_language sample_runtime {| vad_events := true |}
           {| channel :=
                {| alternatives :=
                     [{| transcript := "bonjour"; languages := ["fr"] |}] |};
              is_final := true |}
           {| transcript := "bonjour"; languages := ["fr"] |} [] "fr" []
           eq_refl eq_refl eq_refl).
Defined.

(** The frames of one run of [_on_message]: none, or one frame that wraps
    the transcript, final exactly when the result is, with the metrics
    frames of [stop_ttfb_metrics] before it and, for a final result, the
    [UserStoppedSpeakingFrame] of VAD and the metrics frames of
    [stop_processing_metrics] after it. *)
Lemma on_message_frames (rt : Runtime) (self : DeepgramSTTService)
    (result : LiveResultResponse) :
  fst (_on_message rt self result) = []
  \/ exists f,
       is_transcription f = true
       /\ is_final_transcription f = is_final result
       /\ fst (_on_message rt self result)
          = map MetricsFrame (stop_ttfb_metrics_data rt)
            ++ f :: (if is_final result
                     then (if vad_enabled self
                           then [UserStoppedSpeakingFrame] else [])
                          ++ map MetricsFrame (stop_processing_metrics_data rt)
                     else []).
Proof.
  unfold _on_message.
  destruct (alternatives (channel result)) as [|alt0 rest]; [now left|].
  destruct (languages alt0) as [|l ls].
  - rewrite bind_ret.
    destruct (0 <? String.length (transcript alt0))%nat; [|now left].
    rewrite on_message_body; right.
    eexists; split; [|split; [|reflexivity]]; destruct (is_final result);
      reflexivity.
  - unfold Language; destruct (is_language rt l).
    + unfold await; rewrite !bind_ret.
      destruct (0 <? String.length (transcript alt0))%nat; [|now left].
      rewrite on_message_body; right.
      eexists; split; [|split; [|reflexivity]]; destruct (is_final result);
        reflexivity.
    + left; unfold await, raise; now rewrite !bind_raised.
Qed.

Lemma on_speech_started_frames (rt : Runtime) (self : DeepgramSTTService) :
  fst (_on_speech_started rt self)
  = (if vad_enabled self then [UserStartedSpeakingFrame] else [])
    ++ map MetricsFrame (start_metrics_data rt).
Proof.
  unfold _on_speech_started, start_metrics, push_metrics, push_frame, emit, ret.
  destruct (vad_enabled self); now rewrite bind_returned.
Qed.

(** X9: without VAD events the service pushes transcription frames and the
    metrics frames of the helpers it calls, and nothing else, whatever
    events the connection delivers: no [UserStartedSpeakingFrame] and no
    [UserStoppedSpeakingFrame] in particular. *)
Theorem pushed_without_vad (self : DeepgramSTTService)
    (evs : list (Runtime * LiveTranscriptionEvent)) :
  vad_enabled self = false ->
  Forall (fun f => is_transcription f || is_metrics f = true)
    (pushed_by self evs).
Proof.
  intros Hvad; unfold pushed_by.
  apply Forall_forall; intros f Hf.
  apply in_flat_map in Hf as ([rt ev] & _ & Hf); cbn [fst snd] in Hf.
  assert (Hm : forall data, In f (map MetricsFrame data) ->
                            is_transcription f || is_metrics f = true).
  { intros data Hd; apply in_map_iff in Hd as (d & <- & _); reflexivity. }
  destruct ev as [result| |]; cbn [handler_of] in Hf;
    rewrite ?Hvad in Hf; try (destruct Hf).
  destruct (on_message_frames rt self result) as [He|(g & Hg & _ & He)];
    rewrite He in Hf; [destruct Hf|].
  rewrite Hvad in Hf.
  apply in_app_or in Hf as [Hf|[<-|Hf]]; [eapply Hm; eassumption | |].
  - now rewrite Hg.
  - destruct (is_final result); [|destruct Hf].
    eapply Hm; eassumption.
Qed.

Lemma pushed_without_vad_witness :
  Forall (fun f => is_transcription f || is_metrics f = true)
    (pushed_by {| vad_events := false |}
       [(sample_runtime, SpeechStarted);
        (sample_runtime, Transcript sample_result);
        (sample_runtime, UtteranceEnd)]).
Proof.
  apply (pushed_without_vad {| vad_events := false |}); reflexivity.
Defined.

Lemma stops_weaken (a : bool) (frames : list Frame) :
  stops_follow_finals false frames = true ->
  stops_follow_finals a frames = true.
Proof.
  destruct frames as [|f frames]; [reflexivity|]; cbn.
  destruct (is_user_stopped f); [discriminate | auto].
Qed.

(** X10: whatever events the connection delivers, every
    [UserStoppedSpeakingFrame] that the service pushes comes right after a
    final [TranscriptionFrame]; there are as many of them as final
    transcription frames when VAD is enabled and none when it is not; and
    there are as many [UserStartedSpeakingFrame]s as speech-started events
    when VAD is enabled and none when it is not. *)
Theorem pushed_speaking_frames (self : DeepgramSTTService)
    (evs : list (Runtime * LiveTranscriptionEvent)) :
  stops_follow_finals false (pushed_by self evs) = true
  /\ length (filter is_user_stopped (pushed_by self evs))
     = (if vad_enabled self
        then length (filter is_final_transcription (pushed_by self evs))
        else 0)
  /\ length (filter is_user_started (pushed_by self evs))
     = (if vad_enabled self then length (filter is_speech_started evs)
        else 0).
Proof.
  assert (Hmetrics : forall a data rest,
             stops_follow_finals false rest = true ->
             stops_follow_finals a (map MetricsFrame data ++ rest) = true).
  { intros a data rest Hrest; revert a.
    induction data as [|d data IH]; intros a;
      [now apply stops_weaken | cbn; apply IH]. }
  assert (Hblock : forall rt ev,
    let block := match handler_of rt self ev with
                 | Some run => fst run
                 | None => []
                 end in
    (forall a rest,
        stops_follow_finals false rest = true ->
        stops_follow_finals a (block ++ rest) = true)
    /\ length (filter is_user_stopped block)
       = (if vad_enabled self
          then length (filter is_final_transcription block) else 0)
    /\ length (filter is_user_started block)
       = (if vad_enabled self && is_speech_started (rt, ev) then 1 else 0)).
  { intros rt ev block; unfold block; clear block.
    destruct ev as [result| |]; cbn [handler_of is_speech_started snd].
    - destruct (on_message_frames rt self result) as [He|(g & Hg & Hfin & He)];
        rewrite He.
      + repeat split; auto using stops_weaken;
          destruct (vad_enabled self); reflexivity.
      + rewrite !filter_app, !length_app, !filter_metrics by reflexivity.
        destruct g; try discriminate Hg;
          cbn [is_final_transcription] in Hfin; rewrite <- Hfin;
          (split; [intros a rest Hrest; rewrite <- app_assoc;
                   apply Hmetrics; cbn [app];
                   destruct (vad_enabled self); cbn;
                   rewrite <- ?app_assoc; auto
                  |]);
          cbn [filter is_user_stopped is_user_started is_final_transcription];
          rewrite ?filter_app, ?length_app, ?filter_metrics by reflexivity;
          destruct (vad_enabled self); cbn; split; reflexivity.
    - destruct (vad_enabled self) eqn:Hv; cbn [andb app filter length];
        [|repeat split; auto using stops_weaken].
      rewrite on_speech_started_frames, Hv.
      rewrite !filter_app, !length_app, !filter_metrics by reflexivity.
      split; [|split; reflexivity].
      intros a rest Hrest; rewrite <- app_assoc; cbn.
      now apply Hmetrics.
    - destruct (vad_enabled self); cbn; repeat split; auto using stops_weaken. }
  unfold pushed_by.
  induction evs as [|[rt ev] evs IH]; cbn [flat_map fst snd filter].
  - destruct (vad_enabled self); repeat split.
  - destruct IH as (IHs & IHstop & IHstart).
    destruct (Hblock rt ev) as (Hs & Hstop & Hstart).
    rewrite !filter_app, !length_app, Hstop, Hstart, IHstop, IHstart.
    split; [apply Hs; exact IHs|].
    unfold is_speech_started at 2; cbn [snd].
    destruct (vad_enabled self), ev; cbn; repeat split; lia.
Qed.

(** ** The list that [find_endofsentences] builds *)

Lemma offsets_sorted (b : nat -> bool) (a n : nat) :
  StronglySorted Z.lt (map (fun i => Z.of_nat (S i)) (filter b (seq a n))).
Proof.
  revert a; induction n as [|n IH]; intros a; [constructor|].
  cbn [seq filter]; destruct (b a); [|apply IH].
  cbn [map]; constructor; [apply IH|].
  apply Forall_forall; intros x Hx.
  apply in_map_iff in Hx as (i & <- & Hi).
  apply filter_In in Hi as [Hi _]; apply in_seq in Hi; lia.
Qed.

(** X13: the list that [find_endofsentences] builds before it takes its
    last element holds the offset after every non-suppressed terminator
    of the text, ASCII or full-width, and nothing else, in strictly
    increasing order. *)
Theorem end_indices_all_boundaries (s : text) :
  StronglySorted Z.lt (end_indices s)
  /\ (forall n,
         In n (end_indices s)
         <-> exists i, n = Z.of_nat (S i) /\ boundary s i = true).
Proof.
  rewrite end_indices_offsets; unfold offsets_after.
  split; [apply offsets_sorted|].
  intros n; split.
  - intros Hn; apply in_map_iff in Hn as (i & <- & Hi).
    apply filter_In in Hi as [_ Hi]; now exists i.
  - intros (i & -> & Hi).
    apply in_map_iff; exists i; split; [reflexivity|].
    apply filter_In; split; [|exact Hi].
    apply in_seq; pose proof (boundary_of_lt _ _ _ Hi); lia.
Qed.

(** ** The sample rate of [DeepgramTTSService] *)

(** X14: a service made by [__init__] asks Deepgram for its voice, its
    encoding and its sample rate in a bare container, and every audio
    frame it yields, in every run, carries that same sample rate and one
    channel. *)
Theorem run_tts_sample_rate (client : DeepgramClient)
    (voice : string) (rate : Z) (enc : string) (text : string) :
  options (tts_init voice rate enc)
  = {| so_model := voice; so_encoding := enc; so_sample_rate := rate;
       so_container := "none" |}
  /\ Forall (fun f => match f with
                      | TTSAudioRawFrame _ sample_rate num_channels =>
                          sample_rate = rate /\ num_channels = 1%Z
                      | _ => True
                      end)
       (fst (run_tts client (tts_init voice rate enc) text)).
Proof.
  split; [reflexivity|].
  set (self := tts_init voice rate enc).
  unfold run_tts.
  destruct (speak_stream client text (options self)) as [response|e] eqn:Hr.
  - destruct (stream_memory response) as [b|] eqn:Hm.
    + destruct (closed b) eqn:Hc.
      * rewrite (run_tts_body_closed _ _ _ _ _ Hr Hm Hc), try_except_raised
          by reflexivity.
        repeat constructor.
      * rewrite (run_tts_body_open _ _ _ _ _ Hr Hm Hc), try_except_returned.
        cbn [fst]; constructor; [exact I|].
        apply Forall_forall; intros f Hf.
        apply in_flat_map in Hf as (c & _ & Hf).
        destruct Hf as [<-|[<-|[]]]; [split; reflexivity | exact I].
    + rewrite (run_tts_body_no_audio _ _ _ _ Hr Hm), try_except_raised
        by reflexivity.
      repeat constructor.
  - rewrite (run_tts_body_request_error _ _ _ _ Hr).
    destruct (is_Exception e) eqn:He;
      [rewrite try_except_raised by exact He
      | rewrite try_except_escaped by exact He];
      repeat constructor.
Qed.

(** ** [ImageSyncAggregator] *)

Module ImageSyncProperties.

Import ImageSync.

(** X11: [ImageSyncAggregator] drops nothing and keeps the order: the
    frames it pushes are those it receives with one image more for each
    [BotStartedSpeakingFrame] and [BotStoppedSpeakingFrame], so without
    the images the stream is what it was, and every frame it receives is
    the last one it pushes for it. *)
Theorem process_frames_pass_through (self : ImageSyncAggregator)
    (frames : list Frame) :
  filter (fun f => negb (is_image f)) (process_frames self frames)
  = filter (fun f => negb (is_image f)) frames
  /\ length (process_frames self frames)
     = length frames + length (filter is_bot_speaking frames)
  /\ (forall f, last (process_frame self f) f = f).
Proof.
  split; [|split].
  - induction frames as [|f frames IH]; [reflexivity|].
    unfold process_frames in *; cbn [flat_map].
    rewrite filter_app, IH; destruct f; reflexivity.
  - induction frames as [|f frames IH]; [reflexivity|].
    unfold process_frames in *; cbn [flat_map].
    rewrite length_app, IH; destruct f; cbn; lia.
  - intros f; destruct f; reflexivity.
Qed.

Lemma no_image_not_shown (shown : option Frame) (f : Frame) :
  is_image f = false -> image_shown shown [f] = shown.
Proof. intros H; cbn; now rewrite H. Qed.

(** X12: the image on screen follows the bot: when the frames received
    hold no image of their own, the last image pushed is the speaking image
    if the last of the [BotStartedSpeakingFrame]s and
    [BotStoppedSpeakingFrame]s received was a start, the waiting image if
    it was a stop, and there is none if there was neither; both images
    have the size (1024, 1024). *)
Theorem image_follows_bot (self : ImageSyncAggregator) (frames : list Frame) :
  forallb (fun f => negb (is_image f)) frames = true ->
  image_shown None (process_frames self frames)
  = image_for self (bot_speaking None frames)
  /\ (forall image size format,
         image_shown None (process_frames self frames)
         = Some (OutputImageRawFrame image size format) ->
         size = (1024, 1024)%Z).
Proof.
  intros Hno.
  assert (H : forall speaking,
             image_shown (image_for self speaking) (process_frames self frames)
             = image_for self (bot_speaking speaking frames)).
  { revert Hno; induction frames as [|f frames IH]; intros Hno speaking;
      [reflexivity|].
    cbn [forallb] in Hno; apply andb_true_iff in Hno as [Hf Hno].
    unfold process_frames, image_shown, bot_speaking in *.
    cbn [flat_map fold_left]; rewrite fold_left_app.
    destruct f; try discriminate Hf; cbn [process_frame fold_left is_image];
      first [ apply (IH Hno (Some true)) | apply (IH Hno (Some false))
            | apply (IH Hno speaking) ]. }
  split; [apply (H None)|].
  pose proof (H None) as H0; cbn [image_for] in H0.
  intros image size format; rewrite H0.
  destruct (bot_speaking None frames) as [[|]|]; cbn [image_for];
    unfold speaking_frame, waiting_frame; intros He;
    [injection He as _ <- _ | injection He as _ <- _ | discriminate He];
    reflexivity.
Qed.

Lemma image_follows_bot_witness :
  let self := init {| format := Some "PNG"; tobytes := [Byte.x01] |}
                   {| format := Some "PNG"; tobytes := [Byte.x02] |} in
  image_shown None
    (process_frames self
       [TextFrame "Hi"; BotStartedSpeakingFrame; OtherFrame "audio";
        BotStoppedSpeakingFrame; BotStartedSpeakingFrame])
  = Some (speaking_frame self).
Proof.
  intros self.
  apply (proj1 (image_follows_bot self
                  [TextFrame "Hi"; BotStartedSpeakingFrame; OtherFrame "audio";
                   BotStoppedSpeakingFrame; BotStartedSpeakingFrame]
                  eq_refl)).
Defined.

End ImageSyncProperties.
